(** * voice-stt: the Whisper engine wrapper, its model registry and its cache

    A shallow embedding of [stt_engine/stt_engine.py] and of the engine
    cache of [src/fastapi/api_server.py].

    - Python [str] is [string]; a character is a code point below 256.
    - Python [bytes] is [list byte].
    - Python [int] is [Z]; Python [float] is the IEEE binary64 [float].
    - The file system, the clock, the temporary-name generator, the WAV
      writer of the standard library and the faster-whisper model are the
      environment: the file system is a finite map, the others are
      the fields of the class [Environment].
    - Methods that read or change [self] or the environment are written
      in a state-and-exception monad [M]. *)

From Stdlib Require Import ZArith String Ascii List Floats Uint63.
From stdpp Require Import gmap strings list.
Import ListNotations.
Open Scope string_scope.
Open Scope list_scope.

(** ** Model registry: [class WhisperModelName(str, Enum)] *)

Inductive WhisperModelName : Set :=
| tiny
| base
| small
| medium
| large_v3.

(** [m.value] *)
Definition value (m : WhisperModelName) : string :=
  match m with
  | tiny => "tiny"
  | base => "base"
  | small => "small"
  | medium => "medium"
  | large_v3 => "large-v3"
  end.

(** Iterating the enumeration yields its members in definition order:
    [[m for m in WhisperModelName]]. *)
Definition members : list WhisperModelName :=
  [tiny; base; small; medium; large_v3].

(** [[m.value for m in WhisperModelName]], as the stand-alone UI
    populates its drop-down. *)
Definition choices : list string := map value members.

(** The identifiers as the specification lists them. *)
Definition spec_identifiers : list string :=
  ["tiny"; "base"; "small"; "medium"; "large"].

(** Exceptions that the modelled code raises or lets through. *)
Inductive exn : Set :=
| ValueError (msg : string)
| KeyError
| OSError
| WaveError
| AttributeError
| ModelError (msg : string).

Inductive outcome (A : Type) : Type :=
| Return (a : A)
| Raise (e : exn).
Arguments Return {A} a.
Arguments Raise {A} e.

(** [WhisperModelName(raw)]: look the member up by value, [ValueError]
    when no member has that value. *)
Definition WhisperModelName_of (raw : string) : outcome WhisperModelName :=
  match find (fun m => String.eqb (value m) raw) members with
  | Some m => Return m
  | None => Raise (ValueError ("'" +:+ raw +:+ "' is not a valid WhisperModelName"))
  end.

#[global] Instance WhisperModelName_eq_dec : EqDecision WhisperModelName.
Proof. solve_decision. Defined.

Definition WhisperModelName_index (m : WhisperModelName) : nat :=
  match m with
  | tiny => 0 | base => 1 | small => 2 | medium => 3 | large_v3 => 4
  end.

#[global] Instance WhisperModelName_countable : Countable WhisperModelName.
Proof.
  refine (inj_countable' WhisperModelName_index
            (fun n => nth n members tiny) _).
  intros []; reflexivity.
Defined.

(** ** Strings: [str.isspace], [str.strip], [str.join] *)

(** The code points below 256 that Python counts as whitespace. *)
Definition isspace (c : ascii) : bool :=
  let n := N_of_ascii c in
  ((9 <=? n) && (n <=? 13) || (28 <=? n) && (n <=? 32)
   || (n =? 133) || (n =? 160))%N.

Fixpoint lstrip (s : string) : string :=
  match s with
  | EmptyString => EmptyString
  | String c s' => if isspace c then lstrip s' else s
  end.

Fixpoint rstrip (s : string) : string :=
  match s with
  | EmptyString => EmptyString
  | String c s' =>
      match rstrip s' with
      | EmptyString => if isspace c then EmptyString else String c EmptyString
      | r => String c r
      end
  end.

(** [s.strip()] *)
Definition strip (s : string) : string := rstrip (lstrip s).

(** [all(c.isspace() for c in s)] *)
Fixpoint all_space (s : string) : bool :=
  match s with
  | EmptyString => true
  | String c s' => isspace c && all_space s'
  end.

(** Does [s] begin (end) with a whitespace character? *)
Definition starts_space (s : string) : bool :=
  match s with
  | EmptyString => false
  | String c _ => isspace c
  end.

Fixpoint ends_space (s : string) : bool :=
  match s with
  | EmptyString => false
  | String c EmptyString => isspace c
  | String _ s' => ends_space s'
  end.

(** [sep.join(parts)] with [sep = ""] *)
Definition join (parts : list string) : string := String.concat "" parts.

(** Truth value of a [str]: empty is false. *)
Definition truthy (s : string) : bool :=
  match s with
  | EmptyString => false
  | String _ _ => true
  end.

(** ** Data model *)

Abbreviation bytes := (list Byte.byte).

(** [@dataclass(frozen=True) class TranscriptionResult] *)
Record TranscriptionResult : Type := mkResult {
  text : string;
  detected_language : option string;
  language_probability : option float;
  seconds : float
}.

(** What the guard clauses return:
    [TranscriptionResult("", None, None, 0.0)]. *)
Definition zero_result : TranscriptionResult :=
  mkResult "" None None 0%float.

(** A segment emitted by the model; only [seg.text] is read.  The
    segments of a call are the list that the model's generator yields. *)
Record Segment : Type := mkSeg { seg_text : string }.

(** The model's metadata object; [getattr(info, name, None)] reads a
    missing attribute as [None]. *)
Record TranscriptionInfo : Type := mkInfo {
  info_language : option string;
  info_language_probability : option float
}.

(** [class WhisperSTT]: the fields set by [__init__].  [_model] is the
    identity of the loaded [WhisperModel], or [None].  [_init_lock] is
    free between the calls of a sequential run and is modelled in
    [Module Concurrent] only. *)
Record WhisperSTT : Type := mkSTT {
  model_name : WhisperModelName;
  device : string;
  compute_type : string;
  _model : option nat
}.

(** [d = device or "cuda"]: [None] and the empty string are both false. *)
Definition or_default (o : option string) (d : string) : string :=
  match o with
  | Some s => if truthy s then s else d
  | None => d
  end.

Definition _default_device_config (device compute_type : option string)
  : string * string :=
  let d := or_default device "cuda" in
  let ct := or_default compute_type "float16" in
  (d, ct).

(** [WhisperSTT.__init__] *)
Definition WhisperSTT_init (model_name : WhisperModelName)
    (device compute_type : option string) : WhisperSTT :=
  let '(d, ct) := _default_device_config device compute_type in
  mkSTT model_name d ct None.

(** The writer object of [wave.open(buf, "wb")]. *)
Record Wave_write : Type := mkWave {
  nchannels : Z;
  sampwidth : Z;
  framerate : Z;
  frames : bytes
}.

Definition wave_open : Wave_write := mkWave 0 0 0 [].
Definition setnchannels (n : Z) (wf : Wave_write) : Wave_write :=
  mkWave n (sampwidth wf) (framerate wf) (frames wf).
Definition setsampwidth (n : Z) (wf : Wave_write) : Wave_write :=
  mkWave (nchannels wf) n (framerate wf) (frames wf).
Definition setframerate (n : Z) (wf : Wave_write) : Wave_write :=
  mkWave (nchannels wf) (sampwidth wf) n (frames wf).
Definition writeframes (data : bytes) (wf : Wave_write) : Wave_write :=
  mkWave (nchannels wf) (sampwidth wf) (framerate wf) (frames wf ++ data).

(** ** The environment *)

(** What a call does to the world outside the engine, in order. *)
Inductive Event : Type :=
| EvEnsureModel
| EvLoad (name device compute_type : string)
| EvInfer (model : nat) (audio_path : string) (language : option string)
          (beam_size : Z) (vad_filter : bool)
| EvTempFile (path : string)
| EvRemove (path : string).

(** [files]: the file system ([os.path.exists p] iff [p] is bound);
    [ticks]: how often the clock was read; [models]: the [WhisperModel]
    objects built so far, the n-th one has identity [n];
    [trace]: the events so far, oldest first. *)
Record World : Type := mkWorld {
  files : gmap string bytes;
  ticks : nat;
  models : list (string * string * string);
  trace : list Event
}.

(** The parts of the environment that are not this repository's code. *)
Class Environment : Type := {
  (** [time.time()] at the n-th reading *)
  clock : nat -> float;
  (** the name [tempfile.NamedTemporaryFile(suffix=...)] picks *)
  tmpname : gmap string bytes -> string -> string;
  (** the bytes [wave] leaves in the buffer, [None] when it raises *)
  wav_encode : Wave_write -> option bytes;
  (** [WhisperModel(name, device=, compute_type=)]: [Some msg] when the
      constructor raises *)
  load_error : string -> string -> string -> option string;
  (** [model.transcribe(path, language=, beam_size=, vad_filter=)] for a
      model of the given identity *)
  infer : nat -> gmap string bytes -> string ->
          option string -> Z -> bool ->
          outcome (list Segment * TranscriptionInfo)
}.

(** ** The monad of engine methods *)

Record State : Type := mkState { self : WhisperSTT; world : World }.

Definition M (A : Type) : Type := State -> outcome A * State.

Definition ret {A} (a : A) : M A := fun s => (Return a, s).
Definition raise {A} (e : exn) : M A := fun s => (Raise e, s).
Definition bind {A B} (m : M A) (k : A -> M B) : M B :=
  fun s =>
    match m s with
    | (Return a, s') => k a s'
    | (Raise e, s') => (Raise e, s')
    end.

Notation "x <- m ;; k" := (bind m (fun x => k))
  (at level 100, m at next level, right associativity).
Notation "m ;;; k" := (bind m (fun _ => k))
  (at level 100, right associativity).

(** [try: body finally: cleanup] *)
Definition finally {A} (body : M A) (cleanup : M unit) : M A :=
  fun s =>
    let '(r, s1) := body s in
    match cleanup s1 with
    | (Return _, s2) => (r, s2)
    | (Raise e, s2) => (Raise e, s2)
    end.

(** [try: body except OSError: pass] *)
Definition except_OSError (body : M unit) : M unit :=
  fun s =>
    match body s with
    | (Raise OSError, s') => (Return tt, s')
    | r => r
    end.

Definition emit (e : Event) : M unit :=
  fun s =>
    let w := world s in
    (Return tt,
     mkState (self s) (mkWorld (files w) (ticks w) (models w) (trace w ++ [e]))).

Definition read_model : M (option nat) :=
  fun s => (Return (_model (self s)), s).

Definition write_model (h : option nat) : M unit :=
  fun s =>
    let e := self s in
    (Return tt,
     mkState (mkSTT (model_name e) (device e) (compute_type e) h) (world s)).

Definition read_self : M WhisperSTT := fun s => (Return (self s), s).

(** [os.path.exists(p)] *)
Definition os_path_exists (p : string) : M bool :=
  fun s => (Return (bool_decide (is_Some (files (world s) !! p))), s).

(** [os.remove(p)]: [OSError] when there is no such file. *)
Definition os_remove (p : string) : M unit :=
  fun s =>
    let w := world s in
    match files w !! p with
    | Some _ =>
        (Return tt,
         mkState (self s)
           (mkWorld (delete p (files w)) (ticks w) (models w)
              (trace w ++ [EvRemove p])))
    | None => (Raise OSError, s)
    end.

(** ** The engine: [class WhisperSTT] *)

Section Engine.
Context `{Environment}.

(** [time.time()] *)
Definition time_time : M float :=
  fun s =>
    let w := world s in
    (Return (clock (ticks w)),
     mkState (self s) (mkWorld (files w) (S (ticks w)) (models w) (trace w))).

(** [with tempfile.NamedTemporaryFile(delete=False, suffix=suffix) as tmp:
       tmp.write(data); tmp_path = tmp.name] *)
Definition NamedTemporaryFile_write (suffix : string) (data : bytes)
  : M string :=
  fun s =>
    let w := world s in
    let name := tmpname (files w) suffix in
    (Return name,
     mkState (self s)
       (mkWorld (<[name := data]> (files w)) (ticks w) (models w)
          (trace w ++ [EvTempFile name]))).

(** [buf = io.BytesIO(); with wave.open(buf, "wb") as wf: ...;
    buf.getvalue()] *)
Definition wave_buffer (sample_rate : Z) (pcm16le : bytes) : M bytes :=
  let wf := wave_open in
  let wf := setnchannels 1 wf in
  let wf := setsampwidth 2 wf in
  let wf := setframerate sample_rate wf in
  let wf := writeframes pcm16le wf in
  match wav_encode wf with
  | Some b => ret b
  | None => raise WaveError
  end.

(** [WhisperModel(name, device=device, compute_type=compute_type)] *)
Definition WhisperModel_new (name device compute_type : string) : M nat :=
  fun s =>
    let w := world s in
    let tr := trace w ++ [EvLoad name device compute_type] in
    match load_error name device compute_type with
    | Some msg =>
        (Raise (ModelError msg),
         mkState (self s) (mkWorld (files w) (ticks w) (models w) tr))
    | None =>
        (Return (length (models w)),
         mkState (self s)
           (mkWorld (files w) (ticks w)
              (models w ++ [(name, device, compute_type)]) tr))
    end.

(** [model.transcribe(audio_path, language=, beam_size=, vad_filter=)];
    [model] is what [_ensure_model] returned. *)
Definition model_transcribe (model : option nat) (audio_path : string)
    (language : option string) (beam_size : Z) (vad_filter : bool)
  : M (list Segment * TranscriptionInfo) :=
  match model with
  | None => raise AttributeError
  | Some h =>
      fun s =>
        let w := world s in
        (infer h (files w) audio_path language beam_size vad_filter,
         mkState (self s)
           (mkWorld (files w) (ticks w) (models w)
              (trace w ++ [EvInfer h audio_path language beam_size vad_filter])))
  end.

Definition _ensure_model : M (option nat) :=
  emit EvEnsureModel ;;;
  m <- read_model ;;
  match m with
  | Some _ => read_model
  | None =>
      (* with self._init_lock: *)
      (m' <- read_model ;;
       match m' with
       | None =>
           e <- read_self ;;
           h <- WhisperModel_new (value (model_name e)) (device e)
                  (compute_type e) ;;
           write_model (Some h)
       | Some _ => ret tt
       end) ;;;
      read_model
  end.

(** [lang = language.strip() if language and language.strip() else None] *)
Definition lang (language : option string) : option string :=
  match language with
  | Some l => if truthy l && truthy (strip l) then Some (strip l) else None
  | None => None
  end.

Definition transcribe (audio_path : string) (language : option string)
    (beam_size : Z) (vad_filter : bool) : M TranscriptionResult :=
  missing <- (if negb (truthy audio_path) then ret true
              else there <- os_path_exists audio_path ;; ret (negb there)) ;;
  if (missing : bool) then
    ret (mkResult "" None None 0%float)
  else if (beam_size <? 1)%Z || (beam_size >? 10)%Z then
    raise (ValueError "beam_size must be between 1 and 10")
  else
    model <- _ensure_model ;;
    let lang := lang language in
    t0 <- time_time ;;
    r <- model_transcribe model audio_path lang beam_size vad_filter ;;
    let '(segments, info) := r in
    t1 <- time_time ;;
    let seconds := (t1 - t0)%float in
    let text := strip (join (map seg_text segments)) in
    let detected_language := info_language info in
    let language_probability := info_language_probability info in
    ret (mkResult text detected_language language_probability seconds).

Definition transcribe_pcm16 (pcm16le : bytes) (sample_rate : Z)
    (language : option string) (beam_size : Z) (vad_filter : bool)
  : M TranscriptionResult :=
  match pcm16le with
  | [] => ret (mkResult "" None None 0%float)
  | _ :: _ =>
      buf <- wave_buffer sample_rate pcm16le ;;
      tmp_path <- NamedTemporaryFile_write ".wav" buf ;;
      finally (transcribe tmp_path language beam_size vad_filter)
              (except_OSError (os_remove tmp_path))
  end.

End Engine.

(** ** Observing a run of the engine *)

(** The identity of the model that [_ensure_model] hands out in state
    [s] when loading does not fail: the one already there, else the next
    one to be built. *)
Definition ready_handle (s : State) : nat :=
  match _model (self s) with
  | Some h => h
  | None => length (models (world s))
  end.

(** The temporary files that a run of events creates. *)
Definition temp_files (evs : list Event) : list string :=
  omap (fun e => match e with EvTempFile p => Some p | _ => None end) evs.

(** The world with other files and with more events. *)
Definition with_files (fs : gmap string bytes) (evs : list Event)
    (s : State) : State :=
  let w := world s in
  mkState (self s) (mkWorld fs (ticks w) (models w) (trace w ++ evs)).

(** The events of [_ensure_model] in state [s]. *)
Definition ensure_events (s : State) : list Event :=
  let e := self s in
  EvEnsureModel ::
  match _model e with
  | Some _ => []
  | None => [EvLoad (value (model_name e)) (device e) (compute_type e)]
  end.

(** The state once [_ensure_model] has returned, the clock has been read
    [n] times and inference has been called with [call]. *)
Definition after_inference (n : nat) (call : Event) (s : State) : State :=
  let e := self s in
  let w := world s in
  mkState
    (mkSTT (model_name e) (device e) (compute_type e) (Some (ready_handle s)))
    (mkWorld (files w) (n + ticks w)
       (match _model e with
        | Some _ => models w
        | None =>
            models w ++ [(value (model_name e), device e, compute_type e)]
        end)
       (trace w ++ ensure_events s ++ [call])).

(** ** The engine cache: [ENGINES] and [get_engine] of the API server *)

Module EngineCache.

(** [heap]: the engine objects that exist, by identity;
    [ENGINES]: the module-level dict, from model name to the identity of
    its engine. *)
Record Store : Type := mkStore {
  heap : gmap nat WhisperSTT;
  ENGINES : gmap WhisperModelName nat
}.

(** Evaluating [WhisperSTT(model)] puts a new object on the heap. *)
Definition new_WhisperSTT (model : WhisperModelName) (st : Store)
  : nat * Store :=
  let l := fresh (dom (heap st)) in
  (l, mkStore (<[l := WhisperSTT_init model None None]> (heap st))
        (ENGINES st)).

(** [ENGINES[model] = obj] *)
Definition setitem (model : WhisperModelName) (l : nat) (st : Store) : Store :=
  mkStore (heap st) (<[model := l]> (ENGINES st)).

Definition get_engine (model : WhisperModelName) (st : Store)
  : outcome nat * Store :=
  let st1 :=
    if bool_decide (model ∉ dom (ENGINES st)) then
      let '(l, st') := new_WhisperSTT model st in
      setitem model l st'
    else st in
  match ENGINES st1 !! model with
  | Some l => (Return l, st1)
  | None => (Raise KeyError, st1)
  end.

End EngineCache.

(** ** Concurrent first use: threads inside [_ensure_model] *)

Module Concurrent.

(** Where a thread stands in [_ensure_model]. *)
Inductive pc : Type :=
| AtCheck                  (* if self._model is not None *)
| AtFastReturn             (*     return self._model *)
| AtAcquire                (* with self._init_lock: (waiting for it) *)
| AtRecheck                (*     if self._model is None: *)
| AtConstruct              (*         WhisperModel(...) *)
| AtAssign (h : nat)       (*         self._model = <the new object> *)
| AtRelease                (* (leaving the with block) *)
| AtReturn                 (* return self._model *)
| Returned (r : option nat)
| Raised (e : exn).

(** [engine]: the shared object; [lock]: the thread holding
    [_init_lock], if any; [built]: how many [WhisperModel] objects were
    constructed; [threads]: one program counter per caller. *)
Record Config : Type := mkConfig {
  engine : WhisperSTT;
  lock : option nat;
  built : nat;
  threads : list pc
}.

(** [n] callers enter [_ensure_model] of a new engine for [model]. *)
Definition init (model : WhisperModelName) (n : nat) : Config :=
  mkConfig (WhisperSTT_init model None None) None 0 (replicate n AtCheck).

Definition goto (i : nat) (p : pc) (c : Config) : Config :=
  mkConfig (engine c) (lock c) (built c) (<[i := p]> (threads c)).

Definition set_lock (l : option nat) (c : Config) : Config :=
  mkConfig (engine c) l (built c) (threads c).

Definition set_model (m : option nat) (c : Config) : Config :=
  let e := engine c in
  mkConfig (mkSTT (model_name e) (device e) (compute_type e) m)
    (lock c) (built c) (threads c).

Definition incr_built (c : Config) : Config :=
  mkConfig (engine c) (lock c) (S (built c)) (threads c).

(** One atomic step of thread [i]; [ok] says whether the constructor
    succeeds, should the step be the constructor call.  [None]: the
    thread cannot move (it has finished, waits for the lock, or does
    not exist). *)
Definition step (i : nat) (ok : bool) (c : Config) : option Config :=
  match threads c !! i with
  | None => None
  | Some AtCheck =>
      match _model (engine c) with
      | Some _ => Some (goto i AtFastReturn c)
      | None => Some (goto i AtAcquire c)
      end
  | Some AtFastReturn => Some (goto i (Returned (_model (engine c))) c)
  | Some AtAcquire =>
      match lock c with
      | None => Some (goto i AtRecheck (set_lock (Some i) c))
      | Some _ => None
      end
  | Some AtRecheck =>
      match _model (engine c) with
      | None => Some (goto i AtConstruct c)
      | Some _ => Some (goto i AtRelease c)
      end
  | Some AtConstruct =>
      if ok then Some (goto i (AtAssign (built c)) (incr_built c))
      else Some (goto i (Raised (ModelError "")) (set_lock None c))
  | Some (AtAssign h) => Some (goto i AtRelease (set_model (Some h) c))
  | Some AtRelease => Some (goto i AtReturn (set_lock None c))
  | Some AtReturn => Some (goto i (Returned (_model (engine c))) c)
  | Some (Returned _) => None
  | Some (Raised _) => None
  end.

(** The scheduler's choices, one per step; a choice that names a thread
    that cannot move changes nothing. *)
Fixpoint run (sched : list (nat * bool)) (c : Config) : Config :=
  match sched with
  | [] => c
  | (i, ok) :: rest => run rest (default c (step i ok c))
  end.

Definition finished (p : pc) : bool :=
  match p with
  | Returned _ | Raised _ => true
  | _ => false
  end.

Definition all_done (c : Config) : bool := forallb finished (threads c).

(** Steps a thread has at most left. *)
Definition weight (p : pc) : nat :=
  match p with
  | AtCheck => 7
  | AtAcquire => 6
  | AtRecheck => 5
  | AtConstruct => 4
  | AtAssign _ => 3
  | AtRelease => 2
  | AtReturn | AtFastReturn => 1
  | Returned _ | Raised _ => 0
  end.

Definition measure (c : Config) : nat := sum_list (weight <$> threads c).

(** Between acquiring and releasing [_init_lock]. *)
Definition critical (p : pc) : bool :=
  match p with
  | AtRecheck | AtConstruct | AtAssign _ | AtRelease => true
  | _ => false
  end.

(** What the place of a thread says about [self._model] ([m]) and about
    the number of models built ([b]). *)
Definition phase_ok (m : option nat) (b : nat) (p : pc) : Prop :=
  match p with
  | AtCheck | AtAcquire | Raised _ => True
  | AtRecheck => (m = None ∧ b = 0) ∨ (m = Some 0 ∧ b = 1)
  | AtConstruct => m = None ∧ b = 0
  | AtAssign h => h = 0 ∧ m = None ∧ b = 1
  | AtFastReturn | AtRelease | AtReturn => m = Some 0 ∧ b = 1
  | Returned r => r = Some 0 ∧ m = Some 0 ∧ b = 1
  end.

(** Nothing built and nothing assigned; or built, not yet assigned, by
    the thread that holds the lock; or built and assigned. *)
Definition shared_ok (m : option nat) (b : nat) (lk : option nat) : Prop :=
  (m = None ∧ b = 0) ∨ (m = None ∧ b = 1 ∧ lk ≠ None) ∨ (m = Some 0 ∧ b = 1).

Record Inv (c : Config) : Prop := mkInv {
  inv_holder : ∀ i p,
    threads c !! i = Some p → critical p = true → lock c = Some i;
  inv_locked : ∀ i,
    lock c = Some i → ∃ p, threads c !! i = Some p ∧ critical p = true;
  inv_phase : ∀ i p,
    threads c !! i = Some p → phase_ok (_model (engine c)) (built c) p;
  inv_shared : shared_ok (_model (engine c)) (built c) (lock c)
}.

End Concurrent.

(** ** A test environment *)

(** A stand-in environment in the manner of the repository's tests: the
    clock advances by one second per reading, the WAV writer rejects a
    rate that is not positive and otherwise hands back the frames, the
    model loads, and inference yields the two segments "hello" and
    " world" in English with probability 0.9. *)
Definition test_env : Environment := {|
  clock := fun n => PrimFloat.of_uint63 (Uint63.of_Z (Z.of_nat n));
  tmpname := fun _ suffix => "/tmp/tmpa1b2c3" +:+ suffix;
  wav_encode := fun wf =>
    if (framerate wf <=? 0)%Z then None else Some (frames wf);
  load_error := fun _ _ _ => None;
  infer := fun _ _ _ _ _ _ =>
    Return ([mkSeg "hello"; mkSeg " world"],
            mkInfo (Some "en") (Some 0x1.ccccccccccccdp-1%float))
|}.

(** The same, with a model whose inference fails. *)
Definition failing_env : Environment := {|
  clock := @clock test_env;
  tmpname := @tmpname test_env;
  wav_encode := @wav_encode test_env;
  load_error := fun _ _ _ => None;
  infer := fun _ _ _ _ _ _ => Raise (ModelError "decoding failed")
|}.

(** A new engine for the model tiny, and one audio file. *)
Definition test_state : State :=
  mkState (WhisperSTT_init tiny None None)
    (mkWorld {["audio.wav" := []]} 0 [] []).

Definition one_sample : bytes := [Byte.x00; Byte.x00].

(** ** Sequences of calls on one engine *)

(** A call of one of the two public methods. *)
Inductive Call : Type :=
| Transcribe (audio_path : string) (language : option string)
    (beam_size : Z) (vad_filter : bool)
| TranscribePcm16 (pcm16le : bytes) (sample_rate : Z)
    (language : option string) (beam_size : Z) (vad_filter : bool).

(** The constructor calls and the inference calls among some events. *)
Definition is_load (e : Event) : bool :=
  match e with EvLoad _ _ _ => true | _ => false end.

Definition is_infer (e : Event) : bool :=
  match e with EvInfer _ _ _ _ _ => true | _ => false end.

Definition load_events (evs : list Event) : list Event :=
  List.filter is_load evs.

Definition infer_events (evs : list Event) : list Event :=
  List.filter is_infer evs.

(** The state after [os.remove(p)] has removed [p]. *)
Definition removed (p : string) (s : State) : State :=
  let w := world s in
  mkState (self s)
    (mkWorld (delete p (files w)) (ticks w) (models w)
       (trace w ++ [EvRemove p])).

Section EngineCalls.
Context `{Environment}.

Definition call (c : Call) : M TranscriptionResult :=
  match c with
  | Transcribe audio_path language beam_size vad_filter =>
      transcribe audio_path language beam_size vad_filter
  | TranscribePcm16 pcm16le sample_rate language beam_size vad_filter =>
      transcribe_pcm16 pcm16le sample_rate language beam_size vad_filter
  end.

(** One call after the other on the same engine; what a call returns
    or raises does not stop the next one. *)
Fixpoint calls (cs : list Call) (s : State) : State :=
  match cs with
  | [] => s
  | c :: cs => calls cs (snd (call c s))
  end.

End EngineCalls.

(** An environment in which the model cannot be loaded. *)
Definition broken_env : Environment := {|
  clock := @clock test_env;
  tmpname := @tmpname test_env;
  wav_encode := @wav_encode test_env;
  load_error := fun _ _ _ => Some "CUDA driver not found";
  infer := @infer test_env
|}.

(** [test_state] once its model is loaded. *)
Definition ready_state : State :=
  mkState (mkSTT tiny "cuda" "float16" (Some 0))
    (mkWorld {["audio.wav" := []]} 0 [("tiny", "cuda", "float16")] []).

(** ** Sequences of cache lookups *)

(** [get_engine] for one model after the other. *)
Fixpoint get_engines (ms : list WhisperModelName) (st : EngineCache.Store)
  : EngineCache.Store :=
  match ms with
  | [] => st
  | m :: ms => get_engines ms (snd (EngineCache.get_engine m st))
  end.

(** Every entry of [ENGINES] is an engine on the heap, built for the
    model it is filed under. *)
Definition cache_ok (st : EngineCache.Store) : Prop :=
  ∀ m l, EngineCache.ENGINES st !! m = Some l →
         ∃ e, EngineCache.heap st !! l = Some e ∧ model_name e = m.

(** ** The platform under the front ends *)

From stdpp Require pretty.

(** Library functions that the front ends call and that are no code of
    this repository. *)
Class Platform : Type := {
  (** [os.path.splitext(p)] *)
  splitext : string -> string * string;
  (** [s.lower()] *)
  lower : string -> string;
  (** [round(x, ndigits)] *)
  round_ndigits : float -> Z -> float;
  (** [format(x, ".2f")] *)
  format_2f : float -> string
}.

(** [try: os.remove(p) except OSError: pass], on the world alone. *)
Definition remove_quietly (p : string) (w : World) : World :=
  match files w !! p with
  | Some _ =>
      mkWorld (delete p (files w)) (ticks w) (models w)
        (trace w ++ [EvRemove p])
  | None => w
  end.

(** ** The HTTP API: [transcribe_file] of [api_server.py] *)

(** The handler as a function of its arguments.  The bounds that the
    route declares with [Query(..., ge=, le=)] are checked by the
    framework before the handler runs; where a property needs them it
    takes them as hypotheses. *)

Module ApiServer.

Definition ALLOWED_MIME : list string :=
  ["audio/wav"; "audio/x-wav"; "audio/mpeg"; "audio/mp3"; "audio/mp4";
   "audio/x-m4a"; "audio/flac"; "audio/ogg"; "video/mp4";
   "application/octet-stream"].

Definition ALLOWED_EXT : list string :=
  [".wav"; ".mp3"; ".m4a"; ".mp4"; ".flac"; ".ogg"].

(** The uploaded file: its name and content type as the client sent
    them, and what the successive calls of [file.read(1024 * 1024)]
    return before the end of the file; after them [read] returns the
    empty bytes. *)
Record UploadFile : Type := mkUpload {
  filename : option string;
  content_type : option string;
  chunks : list bytes
}.

(** What the handler raises: its own [HTTPException], or an exception
    of the engine that it does not catch. *)
Inductive http_exn : Type :=
| HTTPException (status_code : Z) (detail : string)
| Uncaught (e : exn).

Inductive reply (A : Type) : Type :=
| Ok (a : A)
| Failed (e : http_exn).
Arguments Ok {A} a.
Arguments Failed {A} e.

(** The content of the [JSONResponse]. *)
Record Body : Type := mkBody {
  body_text : string;
  body_model : string;
  body_detected_language : option string;
  body_language_probability : option float;
  body_seconds : float;
  body_bytes : Z
}.

(** The process: the engine cache and the world. *)
Record Server : Type := mkServer {
  store : EngineCache.Store;
  os : World
}.

(** The [while True] loop over the chunks, from [total] bytes counted
    and [written] bytes written so far: whether the 413 was raised, the
    bytes counted and the bytes written. *)
Fixpoint upload_loop (chunks : list bytes) (max_bytes total : Z)
    (written : bytes) : bool * Z * bytes :=
  match chunks with
  | [] => (false, total, written)
  | [] :: _ => (false, total, written)
  | chunk :: rest =>
      let total := (total + Z.of_nat (length chunk))%Z in
      if (total >? max_bytes)%Z then (true, total, written)
      else upload_loop rest max_bytes total (written ++ chunk)
  end.

Section Handler.
Context `{Environment} `{Platform}.

(** The second [try] block: look the engine up, transcribe, build the
    response. *)
Definition respond (tmp_path : string) (model : WhisperModelName)
    (language : option string) (beam_size : Z) (vad_filter : bool)
    (total : Z) (sv : Server) : reply Body * Server :=
  let '(got, st1) := EngineCache.get_engine model (store sv) in
  match got with
  | Raise e => (Failed (Uncaught e), mkServer st1 (os sv))
  | Return l =>
      match EngineCache.heap st1 !! l with
      | None => (Failed (Uncaught KeyError), mkServer st1 (os sv))
      | Some engine =>
          let '(res, s') :=
            transcribe tmp_path language beam_size vad_filter
              (mkState engine (os sv)) in
          let sv' :=
            mkServer
              (EngineCache.mkStore (<[l := self s']> (EngineCache.heap st1))
                 (EngineCache.ENGINES st1))
              (world s') in
          match res with
          | Raise e => (Failed (Uncaught e), sv')
          | Return res =>
              (Ok (mkBody (text res) (value model) (detected_language res)
                     (language_probability res)
                     (round_ndigits (seconds res) 3) total),
               sv')
          end
      end
  end.

Definition transcribe_file (file : UploadFile) (model : WhisperModelName)
    (language : option string) (beam_size : Z) (vad_filter : bool)
    (max_upload_mb : Z) (sv : Server) : reply Body * Server :=
  let ct := default "" (content_type file) in
  if truthy ct && negb (bool_decide (ct ∈ ALLOWED_MIME)) then
    (Failed (HTTPException 415 ("Unsupported content-type: " +:+ ct)), sv)
  else
    let suffix := lower (snd (splitext (default "" (filename file)))) in
    if truthy suffix && negb (bool_decide (suffix ∈ ALLOWED_EXT)) then
      (Failed (HTTPException 415
                 ("Unsupported file extension: " +:+ suffix)), sv)
    else
      let max_bytes := (max_upload_mb * 1024 * 1024)%Z in
      let w := os sv in
      let tmp_path :=
        tmpname (files w) (if truthy suffix then suffix else ".bin") in
      let '(too_large, total, written) :=
        upload_loop (chunks file) max_bytes 0 [] in
      let w1 :=
        mkWorld (<[tmp_path := written]> (files w)) (ticks w) (models w)
          (trace w ++ [EvTempFile tmp_path]) in
      if too_large then
        (Failed (HTTPException 413
                   ("File too large (>" +:+ pretty.pretty max_upload_mb
                    +:+ "MB).")),
         mkServer (store sv) w1)
      else
        let '(r, sv') :=
          respond tmp_path model language beam_size vad_filter total
            (mkServer (store sv) w1) in
        (r, mkServer (store sv') (remove_quietly tmp_path (os sv'))).

End Handler.

End ApiServer.

(** ** Reading the handler's behaviour *)

Section HandlerViews.
Import EngineCache ApiServer.
Context `{Platform}.

(** The extension that the handler checks. *)
Definition suffix_of (file : UploadFile) : string :=
  lower (snd (splitext (default "" (filename file)))).

(** Both checks at the head of the handler let the file through. *)
Definition accepted (file : UploadFile) : Prop :=
  (default "" (content_type file) = ""
   ∨ default "" (content_type file) ∈ ALLOWED_MIME)
  ∧ (suffix_of file = "" ∨ suffix_of file ∈ ALLOWED_EXT).

(** What the handler answers for what the engine returned or raised. *)
Definition reply_of (model : WhisperModelName) (total : Z)
    (r : outcome TranscriptionResult) : reply Body :=
  match r with
  | Raise e => Failed (Uncaught e)
  | Return res =>
      Ok (mkBody (text res) (value model) (detected_language res)
            (language_probability res) (round_ndigits (seconds res) 3)
            total)
  end.

End HandlerViews.

(** The place on the heap of the engine for [model]: where [ENGINES]
    has it, else where the next new object goes. *)
Definition slot_for (model : WhisperModelName) (st : EngineCache.Store)
  : nat :=
  match EngineCache.ENGINES st !! model with
  | Some l => l
  | None => fresh (dom (EngineCache.heap st))
  end.

(** The engine for [model] as [get_engine] finds or makes it. *)
Definition engine_for (model : WhisperModelName) (st : EngineCache.Store)
  : WhisperSTT :=
  match EngineCache.ENGINES st !! model with
  | Some l =>
      default (WhisperSTT_init model None None) (EngineCache.heap st !! l)
  | None => WhisperSTT_init model None None
  end.

(** The world once the upload [data] is in the temporary file [tmp]. *)
Definition uploaded (tmp : string) (data : bytes) (w : World) : World :=
  mkWorld (<[tmp := data]> (files w)) (ticks w) (models w)
    (trace w ++ [EvTempFile tmp]).

Section HandlerTemp.
Context `{Environment} `{Platform}.

(** The name of the temporary file that the handler creates. *)
Definition tmp_of (file : ApiServer.UploadFile) (w : World) : string :=
  tmpname (files w)
    (if truthy (suffix_of file) then suffix_of file else ".bin").

End HandlerTemp.

(** ** Sequences of requests *)

(** The arguments of one call of the handler. *)
Record Request : Type := mkRequest {
  req_file : ApiServer.UploadFile;
  req_model : WhisperModelName;
  req_language : option string;
  req_beam_size : Z;
  req_vad_filter : bool;
  req_max_upload_mb : Z
}.

Section Serving.
Context `{Environment} `{Platform}.

Definition handle (r : Request) (sv : ApiServer.Server)
  : ApiServer.reply ApiServer.Body * ApiServer.Server :=
  ApiServer.transcribe_file (req_file r) (req_model r) (req_language r)
    (req_beam_size r) (req_vad_filter r) (req_max_upload_mb r) sv.

(** One request after the other; the answer to one does not stop the
    next. *)
Fixpoint serve (rs : list Request) (sv : ApiServer.Server)
  : ApiServer.Server :=
  match rs with
  | [] => sv
  | r :: rs => serve rs (snd (handle r sv))
  end.

End Serving.

(** The process when it starts: no engine, no file, no model. *)
Definition new_server : ApiServer.Server :=
  ApiServer.mkServer (EngineCache.mkStore ∅ ∅) (mkWorld ∅ 0 [] []).

(** The cache and the models that were built belong together: every
    entry of the cache is an engine of its model; the model of an
    engine in the cache is on the list of models under the engine's
    configuration; and every model on the list is the model of an
    engine in the cache. *)
Definition linked (st : EngineCache.Store)
    (ms : list (string * string * string)) : Prop :=
  cache_ok st
  ∧ (∀ m l e h,
       EngineCache.ENGINES st !! m = Some l →
       EngineCache.heap st !! l = Some e → _model e = Some h →
       ms !! h = Some (value m, device e, compute_type e))
  ∧ (∀ h c,
       ms !! h = Some c →
       ∃ m l e,
         EngineCache.ENGINES st !! m = Some l
         ∧ EngineCache.heap st !! l = Some e ∧ _model e = Some h
         ∧ c = (value m, device e, compute_type e)).

(** ** The stand-alone UI: [do_transcribe] of [gradio_app.py] *)

(** The line break of [str.join] and of the f-strings. *)
Definition newline : string := String "010" "".

Module GradioApp.

(** What [build_app] closes over: the dict [engines], from the value of
    a model to its engine, and the world.  The engines are reachable
    through the dict only, so they are kept in it by value. *)
Record UI : Type := mkUI {
  engines : gmap string WhisperSTT;
  ui_world : World
}.

Section DoTranscribe.
Context `{Environment} `{Platform}.

(** The last part of [do_transcribe]: [meta], [header], [body] and the
    string returned. *)
Definition render (res : TranscriptionResult) : string :=
  let meta := [] in
  let meta :=
    if truthy (default "" (detected_language res)) then
      let p :=
        match language_probability res with
        | Some x => format_2f x
        | None => "?"
        end in
      meta ++ ["Detected language: " +:+ default "" (detected_language res)
               +:+ " (p=" +:+ p +:+ ")"]
    else meta in
  let meta := meta ++ ["Time: " +:+ format_2f (seconds res) +:+ "s"] in
  let header := String.concat newline meta in
  let body := if truthy (text res) then text res
              else "[No speech detected]" in
  header +:+ newline +:+ newline +:+ body.

Definition do_transcribe (audio_path model_value lang : string)
    (beam_size : Z) (vad_filter : bool) (ui : UI) : outcome string * UI :=
  if negb (truthy audio_path) then (Return "No audio received.", ui)
  else
    (* if model_value not in engines: engines[model_value] = ... *)
    let made :=
      match engines ui !! model_value with
      | Some _ => Return (engines ui)
      | None =>
          match WhisperModelName_of model_value with
          | Return m =>
              Return (<[model_value := WhisperSTT_init m None None]>
                        (engines ui))
          | Raise e => Raise e
          end
      end in
    match made with
    | Raise e => (Raise e, ui)
    | Return engines1 =>
        match engines1 !! model_value with
        | None => (Raise KeyError, mkUI engines1 (ui_world ui))
        | Some engine =>
            let '(res, s') :=
              transcribe audio_path (Some lang) beam_size vad_filter
                (mkState engine (ui_world ui)) in
            let ui' :=
              mkUI (<[model_value := self s']> engines1) (world s') in
            match res with
            | Raise e => (Raise e, ui')
            | Return res => (Return (render res), ui')
            end
        end
    end.


End DoTranscribe.

End GradioApp.

(** ** The first UI: [load_model] and [transcribe] of [app.py] *)

Module App.

(** [@dataclass class LoadedModel] *)
Record LoadedModel : Type := mkLoaded {
  name : string;
  model : nat
}.

(** The module's global [_MODEL] and the world. *)
Record Process : Type := mkProcess {
  _MODEL : option LoadedModel;
  app_world : World
}.

Definition get_device : string * string := ("cuda", "float16").

Section AppCode.
Context `{Environment} `{Platform}.

(** [WhisperModel(name, device=, compute_type=)], on the world alone. *)
Definition build_model (name device compute_type : string) (w : World)
  : outcome nat * World :=
  let tr := trace w ++ [EvLoad name device compute_type] in
  match load_error name device compute_type with
  | Some msg =>
      (Raise (ModelError msg), mkWorld (files w) (ticks w) (models w) tr)
  | None =>
      (Return (length (models w)),
       mkWorld (files w) (ticks w)
         (models w ++ [(name, device, compute_type)]) tr)
  end.

Definition load_model (model_name : string) (p : Process)
  : outcome nat * Process :=
  let cached :=
    match _MODEL p with
    | Some lm => if String.eqb (name lm) model_name then Some (model lm)
                 else None
    | None => None
    end in
  match cached with
  | Some m => (Return m, p)
  | None =>
      let '(device, compute_type) := get_device in
      match build_model model_name device compute_type (app_world p) with
      | (Raise e, w) => (Raise e, mkProcess (_MODEL p) w)
      | (Return m, w) =>
          (Return m, mkProcess (Some (mkLoaded model_name m)) w)
      end
  end.

(** [lang = None if language.strip() == "" else language.strip()] *)
Definition lang (language : string) : option string :=
  if String.eqb (strip language) "" then None else Some (strip language).

(** The last part of [transcribe]: [meta] and the string returned. *)
Definition render (text : string) (info : TranscriptionInfo) (dt : float)
  : string :=
  let detected := info_language info in
  let prob := info_language_probability info in
  let meta := [] in
  let meta :=
    if truthy (default "" detected) then
      meta ++ ["Detected language: " +:+ default "" detected
               +:+ match prob with
                   | Some x => " (p=" +:+ format_2f x +:+ ")"
                   | None => ""
                   end]
    else meta in
  let meta := meta ++ ["Time: " +:+ format_2f dt +:+ "s"] in
  (match meta with
   | [] => ""
   | _ :: _ => String.concat newline meta +:+ newline +:+ newline
   end)
  +:+ (if truthy text then text else "[No speech detected]").

Definition transcribe (audio_path model_name language : string)
    (beam_size : Z) (p : Process) : outcome string * Process :=
  if negb (truthy audio_path)
     || negb (bool_decide (is_Some (files (app_world p) !! audio_path)))
  then (Return "No audio received.", p)
  else
    match load_model model_name p with
    | (Raise e, p1) => (Raise e, p1)
    | (Return model, p1) =>
        let lang := lang language in
        let w := app_world p1 in
        let t0 := clock (ticks w) in
        let w1 :=
          mkWorld (files w) (S (ticks w)) (models w)
            (trace w ++ [EvInfer model audio_path lang beam_size true]) in
        match infer model (files w) audio_path lang beam_size true with
        | Raise e => (Raise e, mkProcess (_MODEL p1) w1)
        | Return (segments, info) =>
            let text_parts := map seg_text segments in
            let text := strip (join text_parts) in
            let dt := (clock (ticks w1) - t0)%float in
            let w2 :=
              mkWorld (files w1) (S (ticks w1)) (models w1) (trace w1) in
            (Return (render text info dt), mkProcess (_MODEL p1) w2)
        end
    end.

(** One call of [load_model] after the other. *)
Fixpoint load_models (names : list string) (p : Process) : Process :=
  match names with
  | [] => p
  | n :: names => load_models names (snd (load_model n p))
  end.

End AppCode.

End App.


(** ** A test platform and test requests *)

(** The part of [s] from its last dot on, if it has a dot. *)
Fixpoint last_dot (s : string) : option string :=
  match s with
  | EmptyString => None
  | String c s' =>
      match last_dot s' with
      | Some e => Some e
      | None => if Ascii.eqb c "." then Some s else None
      end
  end.

Definition test_splitext (p : string) : string * string :=
  match last_dot p with
  | Some e =>
      if String.eqb e p then (p, "")
      else (String.substring 0 (String.length p - String.length e) p, e)
  | None => (p, "")
  end.

Fixpoint test_lower (s : string) : string :=
  match s with
  | EmptyString => EmptyString
  | String c s' =>
      let n := N_of_ascii c in
      String (if ((65 <=? n) && (n <=? 90))%N then ascii_of_N (n + 32) else c)
        (test_lower s')
  end.

(** Stand-ins for the library functions: right on plain file names, on
    the letters A to Z, and on the two durations 0 and 1 that the runs
    below show; rounding leaves the number as it is. *)
Definition test_platform : Platform := {|
  splitext := test_splitext;
  lower := test_lower;
  round_ndigits := fun x _ => x;
  format_2f := fun x => if PrimFloat.eqb x 0 then "0.00" else "1.00"
|}.

Definition riff : bytes := [Byte.x52; Byte.x49; Byte.x46; Byte.x46].

Definition wav_file : ApiServer.UploadFile :=
  ApiServer.mkUpload (Some "a.WAV") (Some "audio/wav") [riff; riff].

Definition pdf_file : ApiServer.UploadFile :=
  ApiServer.mkUpload (Some "a.wav") (Some "application/pdf") [riff].

Definition exe_file : ApiServer.UploadFile :=
  ApiServer.mkUpload (Some "a.exe") (Some "application/octet-stream") [riff].

(** One MiB and ten bytes, in two chunks. *)
Definition big_file : ApiServer.UploadFile :=
  ApiServer.mkUpload (Some "a.wav") (Some "audio/wav")
    [replicate (Z.to_nat 1048576) Byte.x78; replicate 10 Byte.x78].

(** Calls and schedules for the runs below. *)
Definition two_calls : list Call :=
  [Transcribe "audio.wav" None 5 true;
   TranscribePcm16 one_sample 16000 (Some "en") 5 true].

Definition hello_result : TranscriptionResult :=
  mkResult "hello world" (Some "en") (Some 0x1.ccccccccccccdp-1%float)
    1%float.

Definition until_construct : list (nat * bool) :=
  [(0, true); (1, true); (0, true); (0, true)].

Definition whole_race : list (nat * bool) :=
  map (fun i => (i, true)) [0; 1; 0; 1; 0; 0; 1; 0; 0; 1; 1; 1; 0; 1; 1].

Definition small_loaded : App.Process :=
  App.mkProcess (Some (App.mkLoaded "small" 0))
    (mkWorld {["audio.wav" := []]} 0 [("small", "cuda", "float16")] []).

Definition new_ui : GradioApp.UI :=
  GradioApp.mkUI ∅ (mkWorld {["audio.wav" := []]} 0 [] []).

(** * Properties *)

(** ** Strings *)

Lemma append_nil_l (s : string) : "" +:+ s = s.
Proof. reflexivity. Qed.

Lemma append_cons (c : ascii) (s t : string) :
  String c s +:+ t = String c (s +:+ t).
Proof. reflexivity. Qed.

Ltac str_simpl := simpl; rewrite ?append_cons, ?append_nil_l.

Lemma append_empty_r (s : string) : s +:+ "" = s.
Proof. induction s as [|c s IH]; str_simpl; [reflexivity | by rewrite IH]. Qed.

Lemma append_assoc (a b c : string) : (a +:+ b) +:+ c = a +:+ (b +:+ c).
Proof. induction a as [|x a IH]; str_simpl; [reflexivity | by rewrite IH]. Qed.

Lemma lstrip_split (s : string) :
  ∃ pre, s = pre +:+ lstrip s ∧ all_space pre = true.
Proof.
  induction s as [|c s [pre [Hs Hpre]]].
  - by exists "".
  - simpl. destruct (isspace c) eqn:Hc.
    + exists (String c pre). str_simpl. rewrite Hc, Hpre. by rewrite <- Hs.
    + by exists "".
Qed.

Lemma lstrip_starts (s : string) : starts_space (lstrip s) = false.
Proof.
  induction s as [|c s IH]; simpl; [reflexivity |].
  destruct (isspace c) eqn:Hc; [exact IH | simpl; exact Hc].
Qed.

Lemma rstrip_split (s : string) :
  ∃ post, s = rstrip s +:+ post ∧ all_space post = true.
Proof.
  induction s as [|c s [post [Hs Hpost]]].
  - by exists "".
  - simpl. destruct (rstrip s) as [|d r] eqn:Hr.
    + rewrite append_nil_l in Hs. subst post.
      destruct (isspace c) eqn:Hc.
      * exists (String c s). str_simpl. by rewrite Hc, Hpost.
      * exists s. by str_simpl.
    + exists post. split; [| exact Hpost].
      rewrite (append_cons c). by rewrite <- Hs.
Qed.

Lemma rstrip_ends (s : string) : ends_space (rstrip s) = false.
Proof.
  induction s as [|c s IH]; simpl; [reflexivity |].
  destruct (rstrip s) as [|d r] eqn:Hr.
  - destruct (isspace c) eqn:Hc; simpl; [reflexivity | exact Hc].
  - exact IH.
Qed.

Lemma rstrip_starts (s : string) :
  starts_space s = false → starts_space (rstrip s) = false.
Proof.
  destruct s as [|c s]; simpl; [done |].
  intros Hc. destruct (rstrip s); [rewrite Hc |]; simpl; done.
Qed.

Lemma rstrip_all_space (s : string) : all_space s = true → rstrip s = "".
Proof.
  induction s as [|c s IH]; simpl; [done |].
  intros [Hc Hs]%andb_true_iff. by rewrite (IH Hs), Hc.
Qed.

Lemma lstrip_all_space (s : string) : all_space s = true → lstrip s = "".
Proof.
  induction s as [|c s IH]; simpl; [done |].
  intros [Hc Hs]%andb_true_iff. by rewrite Hc, (IH Hs).
Qed.

Lemma all_space_app (a b : string) :
  all_space (a +:+ b) = all_space a && all_space b.
Proof.
  induction a as [|c a IH]; str_simpl; [reflexivity |].
  simpl. by rewrite IH, andb_assoc.
Qed.

(** What [strip] returns: the middle of the string, between two runs of
    whitespace, and with no whitespace at either end. *)
Lemma strip_spec (s : string) :
  (∃ pre post, s = pre +:+ strip s +:+ post
               ∧ all_space pre = true ∧ all_space post = true)
  ∧ starts_space (strip s) = false
  ∧ ends_space (strip s) = false.
Proof.
  unfold strip. split; [| split].
  - destruct (lstrip_split s) as [pre [Hs Hpre]].
    destruct (rstrip_split (lstrip s)) as [post [Hl Hpost]].
    exists pre, post. split; [| done].
    by rewrite <- Hl.
  - apply rstrip_starts, lstrip_starts.
  - apply rstrip_ends.
Qed.

Lemma strip_empty_iff (s : string) : strip s = "" ↔ all_space s = true.
Proof.
  split.
  - intros Hs. destruct (strip_spec s) as [[pre [post [Heq [Hpre Hpost]]]] _].
    rewrite Heq, Hs, append_nil_l, all_space_app. by rewrite Hpre, Hpost.
  - intros Hs. unfold strip. by rewrite (lstrip_all_space s Hs).
Qed.

Lemma truthy_false_iff (s : string) : truthy s = false ↔ s = "".
Proof. by destruct s. Qed.

(** [join] puts the parts one after the other and adds nothing. *)
Lemma join_cons (p : string) (ps : list string) :
  join (p :: ps) = p +:+ join ps.
Proof.
  unfold join. destruct ps as [|q ps].
  - change (p = p +:+ ""). by rewrite append_empty_r.
  - reflexivity.
Qed.

Lemma join_app (ps qs : list string) : join (ps ++ qs) = join ps +:+ join qs.
Proof.
  induction ps as [|p ps IH]; [done |].
  change ((p :: ps) ++ qs) with (p :: (ps ++ qs)).
  by rewrite !join_cons, IH, append_assoc.
Qed.

(** The segments of the repository's test, and some blanks of other
    kinds. *)
Example strip_join_test : strip (join [" hello"; " world"]) = "hello world".
Proof. reflexivity. Qed.

Example strip_tabs_and_newlines :
  strip (String "009" (String "010" ("a b" +:+ String "013" (String "160" ""))))
  = "a b".
Proof. reflexivity. Qed.

Example lang_blank : lang (Some "   ") = None.
Proof. reflexivity. Qed.

Example lang_padded : lang (Some " en ") = Some "en".
Proof. reflexivity. Qed.

(** ** Model registry *)

Lemma WhisperModelName_of_value (m : WhisperModelName) :
  WhisperModelName_of (value m) = Return m.
Proof. by destruct m. Qed.

Lemma WhisperModelName_of_Return (raw : string) (m : WhisperModelName) :
  WhisperModelName_of raw = Return m → value m = raw.
Proof.
  unfold WhisperModelName_of.
  destruct (find _ members) as [m'|] eqn:Hf; [| done].
  intros [= ->]. apply find_some in Hf as [_ Heq].
  by apply String.eqb_eq.
Qed.

Lemma WhisperModelName_of_Raise (raw : string) (e : exn) :
  WhisperModelName_of raw = Raise e →
  e = ValueError ("'" +:+ raw +:+ "' is not a valid WhisperModelName")
  ∧ raw ∉ choices.
Proof.
  unfold WhisperModelName_of.
  destruct (find _ members) as [m'|] eqn:Hf; [done |].
  intros [= <-]. split; [done |].
  intros [m [-> Hm]]%list_elem_of_fmap.
  apply list_elem_of_In in Hm.
  pose proof (find_none _ _ Hf m Hm) as Hne. simpl in Hne.
  by rewrite String.eqb_refl in Hne.
Qed.

(** C6, as the code has it: the registry lists the five values tiny,
    base, small, medium and large-v3 in this order; a raw string is
    accepted exactly when it is one of them, and it then denotes the
    member with that value; every other raw string is rejected with a
    [ValueError]. *)
Theorem registry_members_and_validation (raw : string) :
  choices = ["tiny"; "base"; "small"; "medium"; "large-v3"]
  ∧ (raw ∈ choices ↔ ∃ m, WhisperModelName_of raw = Return m ∧ value m = raw)
  ∧ (raw ∉ choices ↔
     (WhisperModelName_of raw =
        Raise (ValueError ("'" +:+ raw +:+ "' is not a valid WhisperModelName")))).
Proof.
  split; [reflexivity |].
  assert (Hin : raw ∈ choices ↔ ∃ m, WhisperModelName_of raw = Return m).
  { split.
    - intros [m [-> _]]%list_elem_of_fmap. exists m.
      apply WhisperModelName_of_value.
    - intros [m Hm]. apply WhisperModelName_of_Return in Hm as <-.
      apply list_elem_of_fmap. exists m. split; [done |].
      apply list_elem_of_In. destruct m; simpl; tauto. }
  split.
  - rewrite Hin. split; intros [m Hm]; [| by destruct Hm; eauto].
    exists m. split; [done |]. by apply WhisperModelName_of_Return.
  - split.
    + intros Hn. destruct (WhisperModelName_of raw) as [m|e] eqn:Hr.
      * exfalso. apply Hn, Hin. eauto.
      * by apply WhisperModelName_of_Raise in Hr as [-> _].
    + intros Hr. by apply WhisperModelName_of_Raise in Hr as [_ Hn].
Qed.

(** C6, as the specification words it, fails on the code: the fifth
    identifier is large-v3, not large; the string large is rejected and
    the string large-v3, which is outside the specification's set, is
    accepted. *)
Lemma registry_spec_identifiers_differ :
  bool_decide (choices = spec_identifiers) = false
  ∧ ("large" ∈ spec_identifiers)
  ∧ WhisperModelName_of "large" =
      Raise (ValueError "'large' is not a valid WhisperModelName")
  ∧ ("large-v3" ∉ spec_identifiers)
  ∧ WhisperModelName_of "large-v3" = Return large_v3.
Proof.
  split; [reflexivity |]. split; [| split; [reflexivity |]].
  - unfold spec_identifiers. set_solver.
  - split; [| reflexivity]. unfold spec_identifiers.
    intros Hin. repeat (apply elem_of_cons in Hin as [Hin | Hin]; [done |]).
    by apply elem_of_nil in Hin.
Qed.

(** ** The engine *)

Section EngineProperties.
Context `{Environment}.

Lemma ensure_model_eq (s : State) :
  _ensure_model s =
  let w := world s in
  let e := self s in
  match _model e with
  | Some h => (Return (Some h), with_files (files w) [EvEnsureModel] s)
  | None =>
      let name := value (model_name e) in
      let evs := [EvEnsureModel; EvLoad name (device e) (compute_type e)] in
      match load_error name (device e) (compute_type e) with
      | Some msg => (Raise (ModelError msg), with_files (files w) evs s)
      | None =>
          let h := length (models w) in
          (Return (Some h),
           mkState (mkSTT (model_name e) (device e) (compute_type e) (Some h))
             (mkWorld (files w) (ticks w)
                (models w ++ [(name, device e, compute_type e)])
                (trace w ++ evs)))
      end
  end.
Proof.
  destruct s as [[mn d ct m] [fs tk ms tr]].
  unfold _ensure_model, bind, emit, read_model, read_self, write_model,
    WhisperModel_new, with_files; simpl.
  destruct m as [h|]; simpl; [reflexivity |].
  destruct (load_error (value mn) d ct); simpl; by rewrite <- app_assoc.
Qed.

Lemma transcribe_guard (audio_path : string) (language : option string)
    (beam_size : Z) (vad_filter : bool) (s : State) :
  audio_path = "" ∨ files (world s) !! audio_path = None →
  transcribe audio_path language beam_size vad_filter s
  = (Return zero_result, s).
Proof.
  intros Hmiss. unfold transcribe, bind, os_path_exists.
  destruct Hmiss as [-> | Hnone]; [reflexivity |].
  destruct audio_path as [|c p]; [reflexivity |]. simpl.
  by rewrite Hnone, bool_decide_eq_false_2 by (by intros [? ?]).
Qed.

Lemma transcribe_present (audio_path : string) (language : option string)
    (beam_size : Z) (vad_filter : bool) (s : State) :
  audio_path ≠ "" → is_Some (files (world s) !! audio_path) →
  transcribe audio_path language beam_size vad_filter s =
  if (beam_size <? 1)%Z || (beam_size >? 10)%Z then
    (Raise (ValueError "beam_size must be between 1 and 10"), s)
  else
    (model <- _ensure_model ;;
     t0 <- time_time ;;
     r <- model_transcribe model audio_path (lang language) beam_size
            vad_filter ;;
     t1 <- time_time ;;
     ret (mkResult (strip (join (map seg_text (fst r))))
            (info_language (snd r)) (info_language_probability (snd r))
            (t1 - t0)%float)) s.
Proof.
  intros Hne Hsome. unfold transcribe at 1, bind at 1 2, os_path_exists.
  destruct audio_path as [|c p]; [done |]. simpl.
  rewrite bool_decide_eq_true_2 by done. simpl.
  destruct ((beam_size <? 1)%Z || (beam_size >? 10)%Z); [reflexivity |].
  unfold bind. destruct (_ensure_model s) as [[m|e] s1]; [| reflexivity].
  destruct (time_time s1) as [[t0|e] s2]; [| reflexivity].
  destruct (model_transcribe m _ _ _ _ s2) as [[[segs info]|e] s3];
    reflexivity.
Qed.

(** [transcribe] leaves the file system as it found it and creates no
    temporary file. *)
Lemma transcribe_world (audio_path : string) (language : option string)
    (beam_size : Z) (vad_filter : bool) (s : State) :
  let s' := snd (transcribe audio_path language beam_size vad_filter s) in
  files (world s') = files (world s)
  ∧ ∃ evs, trace (world s') = trace (world s) ++ evs ∧ temp_files evs = [].
Proof.
  assert (Hsame : ∀ r, files (world (snd (r, s))) = files (world s)
    ∧ ∃ evs, trace (world (snd (r : outcome TranscriptionResult, s)))
             = trace (world s) ++ evs ∧ temp_files evs = []).
  { intros r. split; [done |]. exists []. by rewrite app_nil_r. }
  destruct (decide (audio_path = "")) as [He | Hne].
  { rewrite transcribe_guard by auto. apply Hsame. }
  destruct (files (world s) !! audio_path) as [b|] eqn:Hf.
  2: { rewrite transcribe_guard by auto. apply Hsame. }
  rewrite transcribe_present by (rewrite ?Hf; eauto).
  destruct ((beam_size <? 1)%Z || (beam_size >? 10)%Z); [apply Hsame |].
  clear Hsame Hf. unfold bind. rewrite ensure_model_eq.
  destruct s as [[mn d ct m] [fs tk ms tr]]; simpl.
  unfold with_files, model_transcribe, time_time, ret; simpl.
  destruct m as [h|]; simpl.
  - destruct (infer h fs audio_path _ _ _) as [[segs info]|e]; simpl;
      (split; [done |]); rewrite <- app_assoc; eauto.
  - destruct (load_error (value mn) d ct) as [msg|]; simpl.
    + split; [done |]. eauto.
    + destruct (infer (length ms) fs audio_path _ _ _) as [[segs info]|e];
        simpl; (split; [done |]); rewrite <- app_assoc; eauto.
Qed.

(** C1: for a missing or empty audio path [transcribe] returns the zero
    result at once; neither the engine nor the world changes, so the
    engine stays uninitialised and [_ensure_model] is not entered. *)
Theorem transcribe_missing_path_zero_result (audio_path : string)
    (language : option string) (beam_size : Z) (vad_filter : bool)
    (s : State) :
  audio_path = "" ∨ files (world s) !! audio_path = None →
  transcribe audio_path language beam_size vad_filter s
  = (Return (mkResult "" None None 0%float), s).
Proof. apply transcribe_guard. Qed.

(** C10: the existence check comes before the check of [beam_size]: for
    a missing or empty audio path and a beam size outside 1..10 the call
    returns the zero result and does not raise. *)
Theorem transcribe_missing_path_ignores_beam_size (audio_path : string)
    (language : option string) (beam_size : Z) (vad_filter : bool)
    (s : State) :
  audio_path = "" ∨ files (world s) !! audio_path = None →
  (beam_size < 1 ∨ beam_size > 10)%Z →
  fst (transcribe audio_path language beam_size vad_filter s)
    = Return zero_result
  ∧ ∀ e, fst (transcribe audio_path language beam_size vad_filter s)
           ≠ Raise e.
Proof.
  intros Hmiss _. rewrite transcribe_guard by done. by split.
Qed.

(** C2, as the code has it: for an audio path that exists, every beam
    size outside 1..10 makes [transcribe] raise the [ValueError], before
    the model is touched. *)
Theorem transcribe_beam_size_out_of_range (audio_path : string)
    (language : option string) (beam_size : Z) (vad_filter : bool)
    (s : State) :
  audio_path ≠ "" → is_Some (files (world s) !! audio_path) →
  (beam_size < 1 ∨ beam_size > 10)%Z →
  transcribe audio_path language beam_size vad_filter s
  = (Raise (ValueError "beam_size must be between 1 and 10"), s).
Proof.
  intros Hne Hsome Hbeam. rewrite transcribe_present by done.
  replace ((beam_size <? 1)%Z || (beam_size >? 10)%Z) with true; [done |].
  symmetry. apply orb_true_iff. destruct Hbeam; [left | right]; lia.
Qed.

(** A call with a path that exists and a beam size in range, on an
    engine whose model is loaded or can be loaded. *)
Lemma transcribe_valid (audio_path : string) (language : option string)
    (beam_size : Z) (vad_filter : bool) (s : State) :
  audio_path ≠ "" → is_Some (files (world s) !! audio_path) →
  (1 ≤ beam_size ≤ 10)%Z →
  (_model (self s) = None →
   load_error (value (model_name (self s))) (device (self s))
     (compute_type (self s)) = None) →
  let h := ready_handle s in
  let call := EvInfer h audio_path (lang language) beam_size vad_filter in
  transcribe audio_path language beam_size vad_filter s =
  match infer h (files (world s)) audio_path (lang language) beam_size
          vad_filter with
  | Return (segments, info) =>
      (Return
         (mkResult (strip (join (map seg_text segments)))
            (info_language info) (info_language_probability info)
            (clock (S (ticks (world s))) - clock (ticks (world s)))%float),
       after_inference 2 call s)
  | Raise e => (Raise e, after_inference 1 call s)
  end.
Proof.
  intros Hne Hsome Hbeam Hload h call.
  rewrite transcribe_present by done.
  replace ((beam_size <? 1)%Z || (beam_size >? 10)%Z) with false
    by (symmetry; apply orb_false_iff; lia).
  unfold bind. rewrite ensure_model_eq. subst h call.
  destruct s as [[mn d ct m] [fs tk ms tr]].
  unfold after_inference, ensure_events, ready_handle, with_files,
    model_transcribe, time_time, ret; simpl in *.
  destruct m as [h|]; simpl.
  - destruct (infer h fs audio_path _ _ _) as [[segs info]|e]; simpl;
      by rewrite <- app_assoc.
  - rewrite Hload by done. simpl.
    destruct (infer (length ms) fs audio_path _ _ _) as [[segs info]|e];
      simpl; by rewrite <- app_assoc.
Qed.

Lemma lang_spec (language : option string) :
  lang language =
  match language with
  | None => None
  | Some l => if all_space l then None else Some (strip l)
  end.
Proof.
  destruct language as [l|]; [| reflexivity]. unfold lang.
  destruct (all_space l) eqn:Hl.
  - apply strip_empty_iff in Hl. rewrite Hl. simpl. by rewrite andb_false_r.
  - assert (Hs : truthy (strip l) = true).
    { destruct (truthy (strip l)) eqn:Ht; [done |].
      apply truthy_false_iff, strip_empty_iff in Ht. congruence. }
    rewrite Hs, andb_true_r.
    destruct l; [done | reflexivity].
Qed.

(** C5: when inference yields the segments [segments], the text of the
    result is their texts joined in that order with nothing in between,
    stripped: the joined text is some whitespace, then the result's
    text, then some whitespace, and the result's text neither starts
    nor ends with whitespace. *)
Theorem transcribe_text_joined_and_stripped (audio_path : string)
    (language : option string) (beam_size : Z) (vad_filter : bool)
    (s : State) (segments : list Segment) (info : TranscriptionInfo) :
  audio_path ≠ "" → is_Some (files (world s) !! audio_path) →
  (1 ≤ beam_size ≤ 10)%Z →
  (_model (self s) = None →
   load_error (value (model_name (self s))) (device (self s))
     (compute_type (self s)) = None) →
  infer (ready_handle s) (files (world s)) audio_path (lang language)
    beam_size vad_filter = Return (segments, info) →
  ∃ r, fst (transcribe audio_path language beam_size vad_filter s) = Return r
       ∧ text r = strip (foldr String.append "" (map seg_text segments))
       ∧ (∃ pre post,
            foldr String.append "" (map seg_text segments)
              = pre +:+ text r +:+ post
            ∧ all_space pre = true ∧ all_space post = true)
       ∧ starts_space (text r) = false
       ∧ ends_space (text r) = false.
Proof.
  intros Hne Hsome Hbeam Hload Hinfer.
  rewrite transcribe_valid, Hinfer by done. simpl.
  eexists. split; [reflexivity |]. simpl.
  assert (Hj : ∀ ps, join ps = foldr String.append "" ps).
  { induction ps as [|p ps IH]; [done |]. by rewrite join_cons, IH. }
  rewrite Hj. split; [reflexivity |]. apply strip_spec.
Qed.

(** C7: the language handed to inference is [None] when the argument is
    [None], empty or all whitespace, and the stripped argument
    otherwise. *)
Theorem transcribe_normalises_language (audio_path : string)
    (language : option string) (beam_size : Z) (vad_filter : bool)
    (s : State) :
  audio_path ≠ "" → is_Some (files (world s) !! audio_path) →
  (1 ≤ beam_size ≤ 10)%Z →
  (_model (self s) = None →
   load_error (value (model_name (self s))) (device (self s))
     (compute_type (self s)) = None) →
  let s' := snd (transcribe audio_path language beam_size vad_filter s) in
  let passed :=
    match language with
    | None => None
    | Some l => if all_space l then None else Some (strip l)
    end in
  trace (world s') =
    trace (world s) ++ ensure_events s ++
    [EvInfer (ready_handle s) audio_path passed beam_size vad_filter].
Proof.
  intros Hne Hsome Hbeam Hload s' passed. subst s' passed.
  rewrite transcribe_valid by done. rewrite <- lang_spec.
  by destruct (infer _ _ _ _ _ _) as [[segs info]|e].
Qed.

(** C8: on empty input [transcribe_pcm16] returns the zero result and
    changes nothing: no model is loaded, no file is created. *)
Theorem transcribe_pcm16_empty (sample_rate : Z) (language : option string)
    (beam_size : Z) (vad_filter : bool) (s : State) :
  transcribe_pcm16 [] sample_rate language beam_size vad_filter s
  = (Return (mkResult "" None None 0%float), s).
Proof. reflexivity. Qed.

(** C4: on non-empty input for which the WAV writer produces [buf]
    (one channel, two bytes per sample, the given rate, the input as
    frames), [transcribe_pcm16] creates one temporary file holding [buf],
    calls [transcribe] on its path, passes on what that call returns or
    raises, and has removed the file when it returns, whichever way
    [transcribe] ended; it creates no other temporary file. *)
Theorem transcribe_pcm16_temporary_file (pcm16le : bytes) (sample_rate : Z)
    (language : option string) (beam_size : Z) (vad_filter : bool)
    (s : State) (buf : bytes) :
  pcm16le ≠ [] →
  wav_encode (mkWave 1 2 sample_rate pcm16le) = Some buf →
  let tmp := tmpname (files (world s)) ".wav" in
  let s1 := with_files (<[tmp := buf]> (files (world s))) [EvTempFile tmp] s in
  let inner := transcribe tmp language beam_size vad_filter s1 in
  let out := transcribe_pcm16 pcm16le sample_rate language beam_size
               vad_filter s in
  fst out = fst inner
  ∧ self (snd out) = self (snd inner)
  ∧ files (world (snd inner)) !! tmp = Some buf
  ∧ files (world (snd out)) = delete tmp (files (world s))
  ∧ files (world (snd out)) !! tmp = None
  ∧ ∃ evs, trace (world (snd out))
             = trace (world s) ++ [EvTempFile tmp] ++ evs ++ [EvRemove tmp]
           ∧ temp_files evs = [].
Proof.
  intros Hpcm Hwav tmp s1 inner out.
  destruct (transcribe_world tmp language beam_size vad_filter s1)
    as [Hfiles [evs [Htrace Htemps]]].
  fold inner in Hfiles, Htrace.
  assert (Htmp : files (world (snd inner)) !! tmp = Some buf).
  { rewrite Hfiles. subst s1. simpl. apply lookup_insert_eq. }
  assert (Hout : out =
    (fst inner,
     mkState (self (snd inner))
       (mkWorld (delete tmp (files (world (snd inner))))
          (ticks (world (snd inner))) (models (world (snd inner)))
          (trace (world (snd inner)) ++ [EvRemove tmp])))).
  { subst out. unfold transcribe_pcm16.
    destruct pcm16le as [|b pcm]; [done |].
    unfold bind, wave_buffer.
    change (writeframes _ _) with (mkWave 1 2 sample_rate (b :: pcm)).
    rewrite Hwav. unfold ret, NamedTemporaryFile_write, finally.
    fold tmp. change (mkState (self s) _) with s1.
    fold inner. destruct inner as [r s2]. simpl in *.
    unfold except_OSError, os_remove. by rewrite Htmp. }
  rewrite Hout. simpl. split; [done |]. split; [done |]. split; [done |].
  rewrite Hfiles. subst s1. simpl.
  split; [by rewrite delete_insert_eq |].
  split; [by rewrite delete_insert_eq, lookup_delete_eq |].
  exists evs. split; [| done].
  rewrite Htrace. simpl. by rewrite <- !app_assoc.
Qed.

End EngineProperties.

(** ** The engine cache *)

Section EngineCacheProperties.
Import EngineCache.

Lemma get_engine_hit (model : WhisperModelName) (st : Store) (l : nat) :
  ENGINES st !! model = Some l → get_engine model st = (Return l, st).
Proof.
  intros Hl. unfold get_engine.
  rewrite bool_decide_eq_false_2.
  - by rewrite Hl.
  - intros Hn. apply Hn, elem_of_dom. eauto.
Qed.

Lemma get_engine_miss (model : WhisperModelName) (st : Store) :
  ENGINES st !! model = None →
  let l := fresh (dom (heap st)) in
  get_engine model st =
  (Return l,
   mkStore (<[l := WhisperSTT_init model None None]> (heap st))
     (<[model := l]> (ENGINES st))).
Proof.
  intros Hl l. unfold get_engine.
  rewrite bool_decide_eq_true_2 by (by apply not_elem_of_dom).
  simpl. by rewrite lookup_insert_eq.
Qed.

(** C9: [get_engine model] returns the engine that [ENGINES] already
    holds for [model] and changes nothing; when there is none it puts a
    new engine for [model], with no model loaded, at an unused place of
    the heap, enters it in [ENGINES] and returns it.  Either way a
    second call returns the same engine and changes nothing. *)
Theorem get_engine_cached_or_new (model : WhisperModelName) (st : Store) :
  let out := get_engine model st in
  ∃ l, fst out = Return l
    ∧ match ENGINES st !! model with
      | Some l0 => l = l0 ∧ snd out = st
      | None =>
          heap st !! l = None
          ∧ heap (snd out) = <[l := mkSTT model "cuda" "float16" None]> (heap st)
          ∧ ENGINES (snd out) = <[model := l]> (ENGINES st)
      end
    ∧ get_engine model (snd out) = (Return l, snd out).
Proof.
  destruct (ENGINES st !! model) as [l0|] eqn:Hl; simpl.
  - rewrite (get_engine_hit _ _ _ Hl). simpl. exists l0.
    split; [done |]. split; [done |]. by apply get_engine_hit.
  - rewrite (get_engine_miss _ _ Hl). simpl. eexists.
    split; [reflexivity |]. split.
    + split; [| done]. apply not_elem_of_dom, is_fresh.
    + apply get_engine_hit. simpl. apply lookup_insert_eq.
Qed.

Example get_engine_twice :
  let st := mkStore ∅ ∅ in
  let '(r1, st1) := get_engine small st in
  let '(r2, st2) := get_engine small st1 in
  let '(r3, st3) := get_engine tiny st2 in
  r1 = Return 0 ∧ r2 = Return 0 ∧ r3 = Return 1
  ∧ st2 = st1
  ∧ heap st3 !! 0 = Some (mkSTT small "cuda" "float16" None)
  ∧ heap st3 !! 1 = Some (mkSTT tiny "cuda" "float16" None).
Proof. vm_compute. auto 10. Qed.

End EngineCacheProperties.

(** ** Concurrent first use *)

Section ConcurrentProperties.
Import Concurrent.

Lemma init_inv (model : WhisperModelName) (n : nat) : Inv (init model n).
Proof.
  split; simpl.
  - by intros i p [-> _]%lookup_replicate.
  - done.
  - by intros i p [-> _]%lookup_replicate.
  - by left.
Qed.

Ltac other_thread Hj :=
  apply list_lookup_insert_Some in Hj as [(-> & <- & _) | (? & Hj)].

(** A thread moves on without touching the shared state and without
    entering or leaving the critical section. *)
Lemma inv_goto (c : Config) (i : nat) (p p' : pc) :
  Inv c → threads c !! i = Some p →
  critical p' = critical p →
  phase_ok (_model (engine c)) (built c) p' →
  Inv (goto i p' c).
Proof.
  intros [Hh Hl Hp Hs] Hi Hc Hp'. split; simpl.
  - intros j q Hj Hq. other_thread Hj; [| by eauto].
    rewrite Hc in Hq. by eauto.
  - intros j Hj. destruct (Hl j Hj) as [q [Hq Hcq]].
    destruct (decide (j = i)) as [-> | Hne].
    + exists p'. rewrite list_lookup_insert_eq by by eapply lookup_lt_Some.
      split; [done |]. rewrite Hc. congruence.
    + exists q. by rewrite list_lookup_insert_ne.
  - intros j q Hj. other_thread Hj; by eauto.
  - done.
Qed.

(** A thread takes the free lock. *)
Lemma inv_acquire (c : Config) (i : nat) :
  Inv c → threads c !! i = Some AtAcquire → lock c = None →
  Inv (goto i AtRecheck (set_lock (Some i) c)).
Proof.
  intros [Hh Hl Hp Hs] Hi Hfree. split; simpl.
  - intros j q Hj Hq. other_thread Hj; [done |].
    pose proof (Hh j q Hj Hq). congruence.
  - intros j [= <-]. exists AtRecheck.
    by rewrite list_lookup_insert_eq by by eapply lookup_lt_Some.
  - intros j q Hj. other_thread Hj; [| by eauto]. simpl.
    destruct Hs as [? | [(_ & _ & ?) | ?]]; by auto.
  - destruct Hs as [? | [(_ & _ & ?) | ?]]; [by left | done | by right; right].
Qed.

(** The thread that holds the lock gives it up: it leaves the [with]
    block, normally or by an exception. *)
Lemma inv_leave (c : Config) (i : nat) (p p' : pc) :
  Inv c → threads c !! i = Some p →
  critical p = true → critical p' = false →
  phase_ok (_model (engine c)) (built c) p →
  (∀ h, p ≠ AtAssign h) →
  phase_ok (_model (engine c)) (built c) p' →
  Inv (goto i p' (set_lock None c)).
Proof.
  intros [Hh Hl Hp Hs] Hi Hc Hc' Hpp Hna Hp'. split; simpl.
  - intros j q Hj Hq. other_thread Hj; [congruence |].
    pose proof (Hh i p Hi Hc). pose proof (Hh j q Hj Hq). congruence.
  - done.
  - intros j q Hj. other_thread Hj; by eauto.
  - destruct Hs as [? | [(Hm & Hb & _) | ?]]; [by left | | by right; right].
    exfalso. destruct p; simpl in *; intuition congruence.
Qed.

(** The thread that holds the lock changes [self._model] or the number
    of models built. *)
Lemma inv_locked_update (c : Config) (i : nat) (p p' : pc)
    (m' : option nat) (b' : nat) :
  Inv c → threads c !! i = Some p →
  critical p = true → critical p' = true →
  phase_ok m' b' p' →
  shared_ok m' b' (Some i) →
  (∀ q, critical q = false →
        phase_ok (_model (engine c)) (built c) q → phase_ok m' b' q) →
  Inv (mkConfig
         (mkSTT (model_name (engine c)) (device (engine c))
            (compute_type (engine c)) m')
         (lock c) b' (<[i := p']> (threads c))).
Proof.
  intros [Hh Hl Hp Hs] Hi Hc Hc' Hp' Hs' Hothers.
  pose proof (Hh i p Hi Hc) as Hlock. split; simpl.
  - intros j q Hj Hq. other_thread Hj; [done | by eauto].
  - intros j Hj. assert (j = i) as -> by congruence. exists p'.
    by rewrite list_lookup_insert_eq by by eapply lookup_lt_Some.
  - intros j q Hj. other_thread Hj; [done |].
    apply Hothers; [| by eauto].
    destruct (critical q) eqn:Hq; [| done].
    pose proof (Hh j q Hj Hq). congruence.
  - by rewrite Hlock.
Qed.

Lemma step_inv (i : nat) (ok : bool) (c c' : Config) :
  Inv c → step i ok c = Some c' → Inv c'.
Proof.
  intros HI Hstep. unfold step in Hstep.
  destruct (threads c !! i) as [p|] eqn:Hi; [| done].
  pose proof (inv_phase c HI i p Hi) as Hpi.
  pose proof (inv_shared c HI) as Hs.
  destruct c as [[mn d ct m] lk b ts]; simpl in *.
  destruct p; simpl in Hpi.
  - (* AtCheck *)
    destruct m as [h|]; simplify_eq; eapply inv_goto; eauto; simpl.
    destruct Hs as [[? _] | [[? _] | ?]]; congruence.
  - (* AtFastReturn *)
    simplify_eq. eapply inv_goto; eauto. simpl. tauto.
  - (* AtAcquire *)
    destruct lk; simplify_eq. by apply inv_acquire.
  - (* AtRecheck *)
    destruct m as [h|]; simplify_eq; eapply inv_goto; eauto; simpl;
      intuition congruence.
  - (* AtConstruct *)
    destruct Hpi as [-> ->]. destruct ok; simplify_eq.
    + apply (inv_locked_update (mkConfig (mkSTT mn d ct None) lk 0 ts) i
               AtConstruct (AtAssign 0) None 1); simpl; auto.
      * right; left. done.
      * intros q Hq. destruct q; simpl in *; try done; intuition congruence.
    + eapply inv_leave; eauto; simpl; auto.
  - (* AtAssign *)
    destruct Hpi as (-> & -> & ->). simplify_eq.
    apply (inv_locked_update (mkConfig (mkSTT mn d ct None) lk 1 ts) i
             (AtAssign 0) AtRelease (Some 0) 1); simpl; auto.
    + by right; right.
    + intros q Hq. destruct q; simpl in *; try done; intuition congruence.
  - (* AtRelease *)
    simplify_eq. eapply inv_leave; eauto; simpl; auto.
  - (* AtReturn *)
    simplify_eq. eapply inv_goto; eauto. simpl. tauto.
  - done.
  - done.
Qed.

Lemma run_inv (sched : list (nat * bool)) (c : Config) :
  Inv c → Inv (run sched c).
Proof.
  revert c. induction sched as [|[i ok] rest IH]; intros c HI; [done |].
  simpl. apply IH. destruct (step i ok c) as [c'|] eqn:Hstep; [| done].
  by eapply step_inv.
Qed.

(** The threads of the configuration after a step: one of them moved. *)
Lemma step_threads (i : nat) (ok : bool) (c c' : Config) :
  step i ok c = Some c' →
  ∃ p p', threads c !! i = Some p ∧ threads c' = <[i := p']> (threads c)
          ∧ weight p' < weight p
          ∧ (ok = true → ∀ e, p' ≠ Raised e).
Proof.
  unfold step. intros Hstep.
  destruct (threads c !! i) as [p|] eqn:Hi; [| done].
  exists p.
  destruct p; repeat case_match; simplify_eq; eexists;
    (split; [reflexivity |]); (split; [reflexivity |]);
    (split; [simpl; lia | done]).
Qed.

Lemma measure_insert (ts : list pc) (i : nat) (p p' : pc) :
  ts !! i = Some p →
  sum_list (weight <$> <[i := p']> ts) + weight p
  = sum_list (weight <$> ts) + weight p'.
Proof.
  revert i. induction ts as [|q ts IH]; intros i Hi; [done |].
  destruct i as [|i]; csimpl in *.
  - simplify_eq. lia.
  - specialize (IH i Hi). lia.
Qed.

Lemma step_measure (i : nat) (ok : bool) (c c' : Config) :
  step i ok c = Some c' → measure c' < measure c.
Proof.
  intros (p & p' & Hi & Hts & Hw & _)%step_threads.
  unfold measure. rewrite Hts.
  pose proof (measure_insert (threads c) i p p' Hi). lia.
Qed.

Lemma run_measure (sched : list (nat * bool)) (c : Config) :
  (measure (run sched c) ≤ measure c)%nat.
Proof.
  revert c. induction sched as [|[i ok] rest IH]; intros c; [done |].
  simpl. etrans; [apply IH |].
  destruct (step i ok c) as [c'|] eqn:Hstep; [| done].
  apply step_measure in Hstep. simpl. lia.
Qed.

Lemma init_measure (model : WhisperModelName) (n : nat) :
  measure (init model n) = 7 * n.
Proof.
  unfold measure. simpl. induction n as [|n IH]; [done |].
  csimpl in *. lia.
Qed.

Lemma run_length (sched : list (nat * bool)) (c : Config) :
  length (threads (run sched c)) = length (threads c).
Proof.
  revert c. induction sched as [|[i ok] rest IH]; intros c; [done |].
  simpl. rewrite IH.
  destruct (step i ok c) as [c'|] eqn:Hstep; [| done].
  simpl. apply step_threads in Hstep as (p & p' & _ & -> & _).
  apply length_insert.
Qed.

Lemma not_all_done (c : Config) :
  all_done c = false → ∃ i p, threads c !! i = Some p ∧ finished p = false.
Proof.
  unfold all_done. induction (threads c) as [|q ts IH]; simpl; [done |].
  destruct (finished q) eqn:Hq; simpl.
  - intros (i & p & Hi & Hp)%IH. by exists (S i), p.
  - intros _. by exists 0, q.
Qed.

(** No deadlock: while a caller is unfinished, some thread can move. *)
Lemma progress (c : Config) :
  Inv c → all_done c = false → ∃ i, is_Some (step i true c).
Proof.
  intros HI (i & p & Hi & Hp)%not_all_done.
  assert (Hmoves : ∀ j q, threads c !! j = Some q → finished q = false →
                          q ≠ AtAcquire → is_Some (step j true c)).
  { intros j q Hj Hq Hna. unfold step. rewrite Hj.
    destruct q; try done; repeat case_match; eauto. }
  assert (p = AtAcquire ∨ p ≠ AtAcquire) as [-> | Hna]
    by (destruct p; (by left) || (by right)); [| by eauto].
  destruct (lock c) as [j|] eqn:Hl.
  - destruct (inv_locked c HI j Hl) as (q & Hj & Hq). exists j.
    apply (Hmoves j q Hj); by destruct q.
  - exists i. unfold step. rewrite Hi, Hl. eauto.
Qed.

(** Every configuration can be run to the end, also with a constructor
    that does not raise. *)
Lemma completion (c : Config) :
  Inv c →
  ∃ rest, Forall (fun x => snd x = true) rest ∧ all_done (run rest c) = true.
Proof.
  remember (measure c) as k eqn:Hk. revert c Hk.
  induction k as [k IH] using lt_wf_ind. intros c -> HI.
  destruct (all_done c) eqn:Hdone.
  - exists []. by split.
  - destruct (progress c HI Hdone) as [i [c' Hstep]].
    destruct (IH (measure c') (step_measure _ _ _ _ Hstep) c' eq_refl
                (step_inv _ _ _ _ HI Hstep)) as (rest & Hok & Hrest).
    exists ((i, true) :: rest). split; [by constructor |].
    simpl. by rewrite Hstep.
Qed.

(** A constructor that does not raise leaves no caller with an
    exception. *)
Lemma run_no_raise (sched : list (nat * bool)) (c : Config) :
  Forall (fun x => snd x = true) sched →
  (∀ i e, threads c !! i ≠ Some (Raised e)) →
  ∀ i e, threads (run sched c) !! i ≠ Some (Raised e).
Proof.
  revert c. induction sched as [|[j ok] rest IH]; intros c Hok Hc; [done |].
  apply Forall_cons in Hok as [Hj Hrest]. simpl in *. subst ok.
  apply IH; [done |].
  destruct (step j true c) as [c'|] eqn:Hstep; [| done]. simpl.
  apply step_threads in Hstep as (p & p' & Hp & Hts & _ & Hnr).
  rewrite Hts.
  intros i e Hi.
  apply list_lookup_insert_Some in Hi as [(_ & -> & _) | (_ & Hi)].
  - by eapply Hnr.
  - by eapply Hc.
Qed.

(** C3: [n] callers enter [_ensure_model] of a new engine at once, and
    the scheduler interleaves their steps in any way.  At every moment
    at most one model has been built, and every caller that has
    returned has returned that one model.  While a caller is unfinished
    some thread can move, no run has more than [7 * n] steps, and the
    run can be continued until all callers are done.  When the
    constructor does not raise and all callers are done, each of the
    [n] callers has returned the same model and exactly one was
    built. *)
Theorem ensure_model_builds_once (model : WhisperModelName) (n : nat)
    (sched : list (nat * bool)) :
  let c := run sched (init model n) in
  (built c ≤ 1)%nat
  ∧ (∀ i r, threads c !! i = Some (Returned r) →
            r = Some 0 ∧ _model (engine c) = Some 0 ∧ built c = 1)
  ∧ (all_done c = false → ∃ i, is_Some (step i true c))
  ∧ (∀ i ok c', step i ok c = Some c' →
       (measure c' < measure c ≤ 7 * n)%nat)
  ∧ (∃ rest, Forall (fun x => snd x = true) rest
             ∧ all_done (run rest c) = true)
  ∧ (Forall (fun x => snd x = true) sched → all_done c = true →
     threads c = replicate n (Returned (Some 0))
     ∧ (0 < n → built c = 1)).
Proof.
  intros c.
  assert (HI : Inv c) by apply run_inv, init_inv.
  assert (Hlen : length (threads c) = n).
  { unfold c. rewrite run_length. simpl. apply length_replicate. }
  split; [| split; [| split; [| split; [| split]]]].
  - destruct (inv_shared c HI) as [[_ ->] | [(_ & -> & _) | [_ ->]]]; lia.
  - intros i r Hi. apply (inv_phase c HI i _ Hi).
  - by apply progress.
  - intros i ok c' Hstep. split; [by eapply step_measure |].
    unfold c. rewrite <- (init_measure model n). apply run_measure.
  - by apply completion.
  - intros Hok Hdone.
    assert (Hall : ∀ i p, threads c !! i = Some p → p = Returned (Some 0)).
    { intros i p Hi.
      assert (Hf : finished p = true).
      { unfold all_done in Hdone.
        eapply forallb_forall in Hdone; [done |].
        apply list_elem_of_In, list_elem_of_lookup. eauto. }
      destruct p; try done.
      - by destruct (inv_phase c HI i _ Hi) as (-> & _).
      - exfalso. eapply (run_no_raise sched (init model n)); eauto.
        simpl. by intros j e' [? _]%lookup_replicate. }
    split.
    + apply list_eq. intros i.
      destruct (threads c !! i) as [p|] eqn:Hi.
      * rewrite (Hall i p Hi). symmetry. apply lookup_replicate.
        split; [done |]. rewrite <- Hlen. by eapply lookup_lt_Some.
      * symmetry. apply lookup_replicate_None.
        rewrite <- Hlen. by apply lookup_ge_None.
    + intros Hn.
      destruct (lookup_lt_is_Some_2 (threads c) 0) as [p Hp]; [lia |].
      pose proof (Hall 0 p Hp) as ->.
      by destruct (inv_phase c HI 0 _ Hp) as (_ & _ & ?).
Qed.

End ConcurrentProperties.

(** ** Concrete runs *)

Example transcribe_hello_world :
  fst (@transcribe test_env "audio.wav" (Some " en ") 5 true test_state)
  = Return (mkResult "hello world" (Some "en")
              (Some 0x1.ccccccccccccdp-1%float) 1%float).
Proof. vm_compute. reflexivity. Qed.

Example transcribe_hello_world_trace :
  trace (world (snd (@transcribe test_env "audio.wav" (Some " en ") 5 true
                       test_state)))
  = [EvEnsureModel; EvLoad "tiny" "cuda" "float16";
     EvInfer 0 "audio.wav" (Some "en") 5 true].
Proof. vm_compute. reflexivity. Qed.

(** The three ways out of [transcribe_pcm16]: a result, the
    [ValueError], an error of the model.  The temporary file is gone
    each time. *)
Example transcribe_pcm16_success :
  let out := @transcribe_pcm16 test_env one_sample 16000 None 5 true
               test_state in
  fst out
  = Return (mkResult "hello world" (Some "en")
              (Some 0x1.ccccccccccccdp-1%float) 1%float)
  ∧ files (world (snd out)) = files (world test_state)
  ∧ trace (world (snd out))
    = [EvTempFile "/tmp/tmpa1b2c3.wav"; EvEnsureModel;
       EvLoad "tiny" "cuda" "float16";
       EvInfer 0 "/tmp/tmpa1b2c3.wav" None 5 true;
       EvRemove "/tmp/tmpa1b2c3.wav"].
Proof. vm_compute. auto. Qed.

Example transcribe_pcm16_beam_size :
  let out := @transcribe_pcm16 test_env one_sample 16000 None 11 true
               test_state in
  fst out = Raise (ValueError "beam_size must be between 1 and 10")
  ∧ files (world (snd out)) = files (world test_state)
  ∧ trace (world (snd out))
    = [EvTempFile "/tmp/tmpa1b2c3.wav"; EvRemove "/tmp/tmpa1b2c3.wav"].
Proof. vm_compute. auto. Qed.

Example transcribe_pcm16_model_error :
  let out := @transcribe_pcm16 failing_env one_sample 16000 None 5 true
               test_state in
  fst out = Raise (ModelError "decoding failed")
  ∧ files (world (snd out)) = files (world test_state)
  ∧ temp_files (trace (world (snd out))) = ["/tmp/tmpa1b2c3.wav"].
Proof. vm_compute. auto. Qed.

(** A rate the WAV writer rejects: the error leaves before any file is
    created. *)
Example transcribe_pcm16_bad_rate :
  @transcribe_pcm16 test_env one_sample 0 None 5 true test_state
  = (Raise WaveError, test_state).
Proof. reflexivity. Qed.

(** C1 at the path of a file that does not exist. *)
Lemma transcribe_missing_path_zero_result_witness :
  ("does_not_exist.wav" = ""
   ∨ files (world test_state) !! "does_not_exist.wav" = None)
  ∧ @transcribe test_env "does_not_exist.wav" None 5 true test_state
    = (Return (mkResult "" None None 0%float), test_state).
Proof.
  assert (Hmiss : "does_not_exist.wav" = ""
                  ∨ files (world test_state) !! "does_not_exist.wav" = None)
    by (right; reflexivity).
  split; [exact Hmiss |].
  exact (@transcribe_missing_path_zero_result test_env
           "does_not_exist.wav" None 5 true test_state Hmiss).
Defined.

(** C10 at the empty path with beam size 0. *)
Lemma transcribe_missing_path_ignores_beam_size_witness :
  fst (@transcribe test_env "" None 0 true test_state) = Return zero_result
  ∧ ∀ e, fst (@transcribe test_env "" None 0 true test_state) ≠ Raise e.
Proof.
  apply (@transcribe_missing_path_ignores_beam_size test_env "" None 0 true
           test_state).
  - left. reflexivity.
  - left. reflexivity.
Defined.

(** C2 as the specification words it fails on the code: with a path
    that does not exist, or with the empty path, a beam size of 0 or of
    11 raises nothing; the zero result comes back. *)
Lemma transcribe_beam_size_unchecked_for_missing_path :
  (0 < 1)%Z ∧ (11 > 10)%Z
  ∧ files (world test_state) !! "missing.wav" = None
  ∧ @transcribe test_env "missing.wav" None 0 true test_state
    = (Return zero_result, test_state)
  ∧ @transcribe test_env "" None 11 true test_state
    = (Return zero_result, test_state).
Proof. vm_compute. auto. Qed.

(** C2, amended, at the file that exists, with beam size 11. *)
Lemma transcribe_beam_size_out_of_range_witness :
  @transcribe test_env "audio.wav" None 11 true test_state
  = (Raise (ValueError "beam_size must be between 1 and 10"), test_state).
Proof.
  apply (@transcribe_beam_size_out_of_range test_env "audio.wav" None 11
           true test_state).
  - discriminate.
  - exists []. reflexivity.
  - right. reflexivity.
Defined.

(** C4 at one sample of silence, 16 kHz. *)
Lemma transcribe_pcm16_temporary_file_witness :
  let tmp := "/tmp/tmpa1b2c3.wav" in
  let s1 := with_files (<[tmp := one_sample]> (files (world test_state)))
              [EvTempFile tmp] test_state in
  let inner := @transcribe test_env tmp None 5 true s1 in
  let out := @transcribe_pcm16 test_env one_sample 16000 None 5 true
               test_state in
  fst out = fst inner
  ∧ self (snd out) = self (snd inner)
  ∧ files (world (snd inner)) !! tmp = Some one_sample
  ∧ files (world (snd out)) = delete tmp (files (world test_state))
  ∧ files (world (snd out)) !! tmp = None
  ∧ ∃ evs, trace (world (snd out))
             = trace (world test_state) ++ [EvTempFile tmp] ++ evs
               ++ [EvRemove tmp]
           ∧ temp_files evs = [].
Proof.
  apply (@transcribe_pcm16_temporary_file test_env one_sample 16000 None 5
           true test_state one_sample).
  - discriminate.
  - reflexivity.
Defined.

(** C5 at the segments "hello" and " world". *)
Lemma transcribe_text_joined_and_stripped_witness :
  ∃ r, fst (@transcribe test_env "audio.wav" None 5 true test_state)
         = Return r
       ∧ text r = strip (foldr String.append ""
                           (map seg_text [mkSeg "hello"; mkSeg " world"]))
       ∧ (∃ pre post,
            foldr String.append ""
              (map seg_text [mkSeg "hello"; mkSeg " world"])
              = pre +:+ text r +:+ post
            ∧ all_space pre = true ∧ all_space post = true)
       ∧ starts_space (text r) = false
       ∧ ends_space (text r) = false.
Proof.
  apply (@transcribe_text_joined_and_stripped test_env "audio.wav" None 5
           true test_state [mkSeg "hello"; mkSeg " world"]
           (mkInfo (Some "en") (Some 0x1.ccccccccccccdp-1%float))).
  - discriminate.
  - exists []. reflexivity.
  - lia.
  - reflexivity.
  - reflexivity.
Defined.

(** C7 at a language argument with blanks around it. *)
Lemma transcribe_normalises_language_witness :
  trace (world (snd (@transcribe test_env "audio.wav" (Some " en ") 5 true
                       test_state)))
  = trace (world test_state) ++ ensure_events test_state ++
    [EvInfer (ready_handle test_state) "audio.wav"
       (if all_space " en " then None else Some (strip " en ")) 5 true].
Proof.
  apply (@transcribe_normalises_language test_env "audio.wav" (Some " en ")
           5 true test_state).
  - discriminate.
  - exists []. reflexivity.
  - lia.
  - reflexivity.
Defined.

(** Two callers that both find no model before either takes the lock:
    thread 0 builds the model, thread 1 waits, re-checks and builds
    nothing. *)
Example two_callers_race :
  let sched := map (fun i => (i, true))
                 [0; 1; 0; 1; 0; 0; 1; 0; 0; 1; 1; 1; 0; 1; 1] in
  let c := Concurrent.run sched (Concurrent.init small 2) in
  Concurrent.threads c
    = [Concurrent.Returned (Some 0); Concurrent.Returned (Some 0)]
  ∧ Concurrent.built c = 1
  ∧ Concurrent.lock c = None.
Proof. vm_compute. auto. Qed.

(** * Further properties *)

(** ** The engine over several calls *)

Section EngineMoreProperties.
Context `{Environment}.

(** [transcribe_pcm16] on input that is not empty, step by step. *)
Lemma transcribe_pcm16_unfold (pcm16le : bytes) (sample_rate : Z)
    (language : option string) (beam_size : Z) (vad_filter : bool)
    (s : State) :
  pcm16le ≠ [] →
  transcribe_pcm16 pcm16le sample_rate language beam_size vad_filter s =
  match wav_encode (mkWave 1 2 sample_rate pcm16le) with
  | None => (Raise WaveError, s)
  | Some buf =>
      let tmp := tmpname (files (world s)) ".wav" in
      let s1 := with_files (<[tmp := buf]> (files (world s)))
                  [EvTempFile tmp] s in
      let inner := transcribe tmp language beam_size vad_filter s1 in
      (fst inner, removed tmp (snd inner))
  end.
Proof.
  intros Hpcm. unfold transcribe_pcm16.
  destruct pcm16le as [|b pcm]; [done |].
  unfold bind, wave_buffer.
  change (writeframes _ _) with (mkWave 1 2 sample_rate (b :: pcm)).
  destruct (wav_encode _) as [buf|]; [| reflexivity].
  unfold ret, NamedTemporaryFile_write, finally. simpl.
  set (tmp := tmpname (files (world s)) ".wav").
  change (mkState (self s) _) with
    (with_files (<[tmp := buf]> (files (world s))) [EvTempFile tmp] s).
  set (s1 := with_files _ _ s).
  destruct (transcribe_world tmp language beam_size vad_filter s1)
    as [Hfiles _].
  destruct (transcribe tmp language beam_size vad_filter s1) as [r s2].
  simpl in *. unfold except_OSError, os_remove.
  assert (Htmp : files (world s2) !! tmp = Some buf)
    by (rewrite Hfiles; apply lookup_insert_eq).
  by rewrite Htmp.
Qed.

(** The configuration with which the engine of state [s] builds its
    model. *)
Definition config_of (s : State) : string * string * string :=
  (value (model_name (self s)), device (self s), compute_type (self s)).

(** What one call of [transcribe] does to the engine and to the list of
    models: nothing, or it builds the engine's one model. *)
Lemma transcribe_step (audio_path : string) (language : option string)
    (beam_size : Z) (vad_filter : bool) (s : State) :
  let s' := snd (transcribe audio_path language beam_size vad_filter s) in
  ∃ evs, trace (world s') = trace (world s) ++ evs
    ∧ temp_files evs = []
    ∧ files (world s') = files (world s)
    ∧ ((self s' = self s ∧ models (world s') = models (world s)
        ∧ (is_Some (_model (self s)) → load_events evs = []))
       ∨ (_model (self s) = None
          ∧ self s' = mkSTT (model_name (self s)) (device (self s))
                        (compute_type (self s))
                        (Some (length (models (world s))))
          ∧ models (world s') = models (world s) ++ [config_of s])).
Proof.
  assert (Hsame : ∀ r : outcome TranscriptionResult,
    ∃ evs, trace (world (snd (r, s))) = trace (world s) ++ evs
      ∧ temp_files evs = []
      ∧ files (world (snd (r, s))) = files (world s)
      ∧ ((self (snd (r, s)) = self s
          ∧ models (world (snd (r, s))) = models (world s)
          ∧ (is_Some (_model (self s)) → load_events evs = []))
         ∨ (_model (self s) = None
            ∧ self (snd (r, s))
              = mkSTT (model_name (self s)) (device (self s))
                  (compute_type (self s))
                  (Some (length (models (world s))))
            ∧ models (world (snd (r, s)))
              = models (world s) ++ [config_of s]))).
  { intros r. exists []. rewrite app_nil_r. simpl. auto 10. }
  destruct (decide (audio_path = "")) as [He | Hne].
  { rewrite transcribe_guard by auto. apply Hsame. }
  destruct (files (world s) !! audio_path) as [b|] eqn:Hf.
  2: { rewrite transcribe_guard by auto. apply Hsame. }
  rewrite transcribe_present by (rewrite ?Hf; eauto).
  destruct ((beam_size <? 1)%Z || (beam_size >? 10)%Z); [apply Hsame |].
  clear Hsame Hf. unfold bind. rewrite ensure_model_eq.
  destruct s as [[mn d ct m] [fs tk ms tr]]; simpl.
  unfold with_files, model_transcribe, time_time, ret, config_of; simpl.
  destruct m as [h|]; simpl.
  - destruct (infer h fs audio_path _ _ _) as [[segs info]|e]; simpl;
      eexists; (split; [by rewrite <- app_assoc |]);
      (split; [done |]); (split; [done |]); left; auto.
  - destruct (load_error (value mn) d ct) as [msg|]; simpl.
    + eexists. split; [reflexivity |]. split; [done |]. split; [done |].
      left. split; [done |]. split; [done |]. by intros [? ?].
    + destruct (infer (length ms) fs audio_path _ _ _) as [[segs info]|e];
        simpl; eexists; (split; [by rewrite <- app_assoc |]);
        (split; [done |]); (split; [done |]); right; auto.
Qed.

(** The same for either method. *)
Lemma call_step (c : Call) (s : State) :
  let s' := snd (call c s) in
  ∃ evs, trace (world s') = trace (world s) ++ evs
    ∧ ((self s' = self s ∧ models (world s') = models (world s)
        ∧ (is_Some (_model (self s)) → load_events evs = []))
       ∨ (_model (self s) = None
          ∧ self s' = mkSTT (model_name (self s)) (device (self s))
                        (compute_type (self s))
                        (Some (length (models (world s))))
          ∧ models (world s') = models (world s) ++ [config_of s])).
Proof.
  destruct c as [p l b v | pcm rate l b v]; simpl.
  - destruct (transcribe_step p l b v s) as (evs & Htr & _ & _ & Hcases).
    eauto.
  - destruct pcm as [|x pcm].
    { exists []. rewrite app_nil_r. simpl. split; [done |]. left. auto. }
    rewrite transcribe_pcm16_unfold by done.
    destruct (wav_encode _) as [buf|].
    2: { exists []. rewrite app_nil_r. simpl. split; [done |]. left. auto. }
    cbv zeta.
    set (tmp := tmpname (files (world s)) ".wav").
    set (s1 := with_files (<[tmp := buf]> (files (world s)))
                 [EvTempFile tmp] s).
    destruct (transcribe_step tmp l b v s1) as (evs & Htr & _ & _ & Hcases).
    set (inner := transcribe tmp l b v s1) in *.
    change (self s1) with (self s) in Hcases.
    change (models (world s1)) with (models (world s)) in Hcases.
    change (config_of s1) with (config_of s) in Hcases.
    change (trace (world s1)) with (trace (world s) ++ [EvTempFile tmp])
      in Htr.
    clearbody inner.
    exists ([EvTempFile tmp] ++ evs ++ [EvRemove tmp]).
    split; [simpl; rewrite Htr; by rewrite <- !app_assoc |].
    destruct Hcases as [(Hself & Hmodels & Hload) | (Hnone & Hself & Hmodels)].
    + left. split; [done |]. split; [done |]. intros Hsome.
      unfold load_events in *. simpl.
      rewrite List.filter_app, (Hload Hsome). reflexivity.
    + right. auto.
Qed.

(** An engine whose model is loaded keeps it, and the constructor is
    not called again. *)
Lemma calls_ready (cs : list Call) (s : State) :
  is_Some (_model (self s)) →
  self (calls cs s) = self s
  ∧ models (world (calls cs s)) = models (world s)
  ∧ ∃ evs, trace (world (calls cs s)) = trace (world s) ++ evs
           ∧ load_events evs = [].
Proof.
  revert s. induction cs as [|c cs IH]; intros s Hready; simpl.
  { split; [done |]. split; [done |]. exists []. by rewrite app_nil_r. }
  destruct (call_step c s) as (evs & Htr & Hcases).
  destruct Hcases as [(Hself & Hms & Hload) | (Hnone & _)].
  2: { rewrite Hnone in Hready. by destruct Hready. }
  destruct (IH (snd (call c s))) as (Hself' & Hms' & evs' & Htr' & Hload').
  { by rewrite Hself. }
  rewrite Hself', Hms', Hself, Hms. split; [done |]. split; [done |].
  exists (evs ++ evs'). rewrite Htr', Htr, <- app_assoc. split; [done |].
  unfold load_events in *. by rewrite List.filter_app, Hload, Hload'.
Qed.

(** X1: whatever sequence of calls is made on an engine, its model
    name, device and compute type stay what they were, and at most one
    model is ever built for it: either none, or the one that the first
    loading call builds, which every later call keeps. *)
Theorem engine_builds_at_most_one_model (cs : list Call) (s : State) :
  let s' := calls cs s in
  model_name (self s') = model_name (self s)
  ∧ device (self s') = device (self s)
  ∧ compute_type (self s') = compute_type (self s)
  ∧ ((_model (self s') = _model (self s)
      ∧ models (world s') = models (world s))
     ∨ (_model (self s) = None
        ∧ _model (self s') = Some (length (models (world s)))
        ∧ models (world s') = models (world s) ++ [config_of s])).
Proof.
  revert s. induction cs as [|c cs IH]; intros s; simpl; [auto 10 |].
  destruct (call_step c s) as (evs & _ & Hcases).
  destruct Hcases as [(Hself & Hms & _) | (Hnone & Hself & Hms)].
  - specialize (IH (snd (call c s))). simpl in IH.
    unfold config_of in *. rewrite Hself, Hms in IH. exact IH.
  - destruct (calls_ready cs (snd (call c s))) as (Hself' & Hms' & _).
    { rewrite Hself. simpl. eauto. }
    rewrite Hself', Hms', Hself, Hms. simpl. auto 10.
Qed.

(** X2: once the model of an engine is loaded, no later call of either
    method calls the constructor again or replaces the model. *)
Theorem engine_ready_never_reloads (cs : list Call) (s : State) (h : nat) :
  _model (self s) = Some h →
  _model (self (calls cs s)) = Some h
  ∧ models (world (calls cs s)) = models (world s)
  ∧ ∃ evs, trace (world (calls cs s)) = trace (world s) ++ evs
           ∧ load_events evs = [].
Proof.
  intros Hh. destruct (calls_ready cs s) as (Hself & Hms & Hevs).
  { rewrite Hh. eauto. }
  rewrite Hself. auto.
Qed.

(** What [transcribe] can return: the zero result, or a result shaped
    from what inference yielded. *)
Lemma transcribe_return (audio_path : string) (language : option string)
    (beam_size : Z) (vad_filter : bool) (s s' : State)
    (r : TranscriptionResult) :
  transcribe audio_path language beam_size vad_filter s = (Return r, s') →
  (r = zero_result ∧ s' = s)
  ∨ ∃ h segments info,
      infer h (files (world s)) audio_path (lang language) beam_size
        vad_filter = Return (segments, info)
      ∧ _model (self s') = Some h
      ∧ r = mkResult (strip (join (map seg_text segments)))
              (info_language info) (info_language_probability info)
              (clock (S (ticks (world s))) - clock (ticks (world s)))%float.
Proof.
  destruct (decide (audio_path = "")) as [He | Hne].
  { rewrite transcribe_guard by auto. intros [= <- <-]. by left. }
  destruct (files (world s) !! audio_path) as [b|] eqn:Hf.
  2: { rewrite transcribe_guard by auto. intros [= <- <-]. by left. }
  rewrite transcribe_present by (rewrite ?Hf; eauto).
  destruct ((beam_size <? 1)%Z || (beam_size >? 10)%Z); [done |].
  unfold bind. rewrite ensure_model_eq.
  destruct s as [[mn d ct m] [fs tk ms tr]]; simpl.
  unfold with_files, model_transcribe, time_time, ret; simpl.
  destruct m as [h|]; simpl.
  - destruct (infer h fs audio_path _ _ _) as [[segs info]|e] eqn:Hi;
      simpl; [| done].
    intros [= <- <-]. right. exists h, segs, info. auto.
  - destruct (load_error (value mn) d ct) as [msg|]; simpl; [done |].
    destruct (infer (length ms) fs audio_path _ _ _) as [[segs info]|e]
      eqn:Hi; simpl; [| done].
    intros [= <- <-]. right. exists (length ms), segs, info. auto.
Qed.

(** X3: the text of every result that either method returns has no
    whitespace at its start or at its end. *)
Theorem result_text_is_stripped (c : Call) (s s' : State)
    (r : TranscriptionResult) :
  call c s = (Return r, s') →
  starts_space (text r) = false ∧ ends_space (text r) = false.
Proof.
  assert (Ht : ∀ p l b v s0 s1,
    transcribe p l b v s0 = (Return r, s1) →
    starts_space (text r) = false ∧ ends_space (text r) = false).
  { intros p l b v s0 s1 Hr.
    apply transcribe_return in Hr as [[-> _] | (h & segs & info & _ & _ & ->)].
    - done.
    - simpl. apply strip_spec. }
  destruct c as [p l b v | pcm rate l b v]; simpl; [by apply Ht |].
  destruct pcm as [|x pcm]; [by intros [= <- _] |].
  rewrite transcribe_pcm16_unfold by done.
  destruct (wav_encode _) as [buf|]; [| done]. cbv zeta.
  destruct (transcribe _ l b v _) as [r1 s1] eqn:Hinner. simpl.
  intros [= -> _]. by eapply Ht.
Qed.

(** X4: when the model cannot be loaded, [transcribe] on valid input
    raises the constructor's error; the engine stays without a model,
    so that the next call tries again; inference is not called and the
    clock is not read. *)
Theorem transcribe_load_failure (audio_path : string)
    (language : option string) (beam_size : Z) (vad_filter : bool)
    (s : State) (msg : string) :
  audio_path ≠ "" → is_Some (files (world s) !! audio_path) →
  (1 ≤ beam_size ≤ 10)%Z →
  _model (self s) = None →
  load_error (value (model_name (self s))) (device (self s))
    (compute_type (self s)) = Some msg →
  transcribe audio_path language beam_size vad_filter s =
  (Raise (ModelError msg),
   mkState (self s)
     (mkWorld (files (world s)) (ticks (world s)) (models (world s))
        (trace (world s)
         ++ [EvEnsureModel;
             EvLoad (value (model_name (self s))) (device (self s))
               (compute_type (self s))]))).
Proof.
  intros Hne Hsome Hbeam Hnone Hload.
  rewrite transcribe_present by done.
  replace ((beam_size <? 1)%Z || (beam_size >? 10)%Z) with false
    by (symmetry; apply orb_false_iff; lia).
  unfold bind. rewrite ensure_model_eq. simpl. by rewrite Hnone, Hload.
Qed.

(** X5: when inference raises, [transcribe] raises the same error; the
    model that was loaded for the call stays loaded, the file system is
    as before, and the clock was read once. *)
Theorem transcribe_inference_failure (audio_path : string)
    (language : option string) (beam_size : Z) (vad_filter : bool)
    (s : State) (e : exn) :
  audio_path ≠ "" → is_Some (files (world s) !! audio_path) →
  (1 ≤ beam_size ≤ 10)%Z →
  (_model (self s) = None →
   load_error (value (model_name (self s))) (device (self s))
     (compute_type (self s)) = None) →
  infer (ready_handle s) (files (world s)) audio_path (lang language)
    beam_size vad_filter = Raise e →
  let out := transcribe audio_path language beam_size vad_filter s in
  fst out = Raise e
  ∧ _model (self (snd out)) = Some (ready_handle s)
  ∧ files (world (snd out)) = files (world s)
  ∧ ticks (world (snd out)) = S (ticks (world s)).
Proof.
  intros Hne Hsome Hbeam Hload Hinfer out. subst out.
  rewrite transcribe_valid, Hinfer by done. by simpl.
Qed.

(** X6: when the WAV writer rejects the input, [transcribe_pcm16] raises
    its error before any file is created; nothing changes. *)
Theorem transcribe_pcm16_wave_error (pcm16le : bytes) (sample_rate : Z)
    (language : option string) (beam_size : Z) (vad_filter : bool)
    (s : State) :
  pcm16le ≠ [] →
  wav_encode (mkWave 1 2 sample_rate pcm16le) = None →
  transcribe_pcm16 pcm16le sample_rate language beam_size vad_filter s
  = (Raise WaveError, s).
Proof.
  intros Hpcm Hwav. by rewrite transcribe_pcm16_unfold, Hwav.
Qed.

(** X7: [transcribe] never creates, changes or removes a file, creates
    no temporary file and reads the clock at most twice. *)
Theorem transcribe_leaves_files_alone (audio_path : string)
    (language : option string) (beam_size : Z) (vad_filter : bool)
    (s : State) :
  let s' := snd (transcribe audio_path language beam_size vad_filter s) in
  files (world s') = files (world s)
  ∧ (ticks (world s) ≤ ticks (world s') ≤ 2 + ticks (world s))%nat
  ∧ ∃ evs, trace (world s') = trace (world s) ++ evs
           ∧ temp_files evs = []
           ∧ (length (infer_events evs) ≤ 1)%nat.
Proof.
  assert (Hsame : ∀ r : outcome TranscriptionResult,
    files (world (snd (r, s))) = files (world s)
    ∧ (ticks (world s) ≤ ticks (world (snd (r, s)))
       ≤ 2 + ticks (world s))%nat
    ∧ ∃ evs, trace (world (snd (r, s))) = trace (world s) ++ evs
             ∧ temp_files evs = []
             ∧ (length (infer_events evs) ≤ 1)%nat).
  { intros r. simpl. split; [done |]. split; [lia |].
    exists []. rewrite app_nil_r. simpl. auto. }
  destruct (decide (audio_path = "")) as [He | Hne].
  { rewrite transcribe_guard by auto. apply Hsame. }
  destruct (files (world s) !! audio_path) as [b|] eqn:Hf.
  2: { rewrite transcribe_guard by auto. apply Hsame. }
  rewrite transcribe_present by (rewrite ?Hf; eauto).
  destruct ((beam_size <? 1)%Z || (beam_size >? 10)%Z); [apply Hsame |].
  clear Hsame Hf. unfold bind. rewrite ensure_model_eq.
  destruct s as [[mn d ct m] [fs tk ms tr]]; simpl.
  unfold with_files, model_transcribe, time_time, ret; simpl.
  destruct m as [h|]; simpl.
  - destruct (infer h fs audio_path _ _ _) as [[segs info]|e]; simpl;
      (split; [done |]); (split; [lia |]); eexists;
      (split; [by rewrite <- app_assoc |]); simpl; auto.
  - destruct (load_error (value mn) d ct) as [msg|]; simpl.
    + split; [done |]. split; [lia |]. eexists.
      split; [reflexivity |]. simpl. auto.
    + destruct (infer (length ms) fs audio_path _ _ _) as [[segs info]|e];
        simpl; (split; [done |]); (split; [lia |]); eexists;
        (split; [by rewrite <- app_assoc |]); simpl; auto.
Qed.

End EngineMoreProperties.

(** ** Language normalisation and new engines *)

Lemma lstrip_id (s : string) : starts_space s = false → lstrip s = s.
Proof. destruct s as [|c s]; simpl; [done |]. by intros ->. Qed.

Lemma rstrip_id (s : string) : ends_space s = false → rstrip s = s.
Proof.
  induction s as [|c s IH]; [done |].
  destruct s as [|d s].
  - simpl. by intros ->.
  - intros He. change (ends_space (String d s) = false) in He.
    change (rstrip (String c (String d s))) with
      (match rstrip (String d s) with
       | EmptyString =>
           if isspace c then EmptyString else String c EmptyString
       | r => String c r
       end).
    by rewrite (IH He).
Qed.

Lemma strip_idempotent (s : string) : strip (strip s) = strip s.
Proof.
  destruct (strip_spec s) as (_ & Hs & He).
  unfold strip at 1. by rewrite (lstrip_id _ Hs), (rstrip_id _ He).
Qed.

(** X8: a language that reaches inference is never empty, has no
    whitespace around it, is the stripped argument, and normalising it
    again changes nothing. *)
Theorem lang_never_blank (language : option string) (x : string) :
  lang language = Some x →
  x ≠ "" ∧ starts_space x = false ∧ ends_space x = false
  ∧ lang (Some x) = Some x
  ∧ ∃ l, language = Some l ∧ x = strip l.
Proof.
  rewrite lang_spec. destruct language as [l|]; [| done].
  destruct (all_space l) eqn:Hl; [done |]. intros [= <-].
  destruct (strip_spec l) as (_ & Hs & He).
  assert (Hne : strip l ≠ "").
  { intros Hemp. apply strip_empty_iff in Hemp. congruence. }
  split; [done |]. split; [done |]. split; [done |]. split; [| eauto].
  rewrite lang_spec, strip_idempotent.
  destruct (all_space (strip l)) eqn:Hall; [| done].
  apply strip_empty_iff in Hall. by rewrite strip_idempotent in Hall.
Qed.

(** A new engine has the given model name and no model; [None] and
    the empty string as device or compute type both mean the default,
    cuda and float16, so that neither field is ever empty; any other
    string is kept. *)
Theorem new_engine_configuration (model : WhisperModelName)
    (dev ct : option string) :
  let e := WhisperSTT_init model dev ct in
  model_name e = model ∧ _model e = None
  ∧ truthy (device e) = true ∧ truthy (compute_type e) = true
  ∧ (dev = None ∨ dev = Some "" → device e = "cuda")
  ∧ (ct = None ∨ ct = Some "" → compute_type e = "float16")
  ∧ (∀ d, dev = Some d → d ≠ "" → device e = d)
  ∧ (∀ c, ct = Some c → c ≠ "" → compute_type e = c).
Proof.
  unfold WhisperSTT_init, _default_device_config, or_default. simpl.
  split; [done |]. split; [done |].
  split; [by destruct dev as [[|? ?]|] |].
  split; [by destruct ct as [[|? ?]|] |].
  split; [by intros [-> | ->] |]. split; [by intros [-> | ->] |].
  split.
  - intros d -> Hd. by destruct d.
  - intros c -> Hc. by destruct c.
Qed.

(** ** The engine cache over several lookups *)

Section EngineCacheMoreProperties.
Import EngineCache.

Lemma get_engine_cache_ok (model : WhisperModelName) (st : Store) :
  cache_ok st → cache_ok (snd (get_engine model st)).
Proof.
  intros Hok. destruct (ENGINES st !! model) as [l0|] eqn:Hl.
  - by rewrite (get_engine_hit _ _ _ Hl).
  - rewrite (get_engine_miss _ _ Hl). simpl.
    pose proof (is_fresh (dom (heap st))) as Hfresh.
    apply not_elem_of_dom in Hfresh.
    intros m l Hm. simpl in *.
    apply lookup_insert_Some in Hm as [[<- <-] | [Hne Hm]].
    + eexists. by rewrite lookup_insert_eq.
    + destruct (Hok m l Hm) as (e & He & Hname). exists e.
      rewrite lookup_insert_ne; [done |].
      intros <-. congruence.
Qed.

Lemma get_engines_cache_ok (ms : list WhisperModelName) (st : Store) :
  cache_ok st → cache_ok (get_engines ms st).
Proof.
  revert st. induction ms as [|m ms IH]; intros st Hok; [done |].
  simpl. by apply IH, get_engine_cache_ok.
Qed.

Lemma get_engine_keys (model m : WhisperModelName) (st : Store) :
  is_Some (ENGINES (snd (get_engine model st)) !! m)
  ↔ m = model ∨ is_Some (ENGINES st !! m).
Proof.
  destruct (ENGINES st !! model) as [l0|] eqn:Hl.
  - rewrite (get_engine_hit _ _ _ Hl). simpl. split; [auto |].
    intros [-> | ?]; [rewrite Hl; eauto | done].
  - rewrite (get_engine_miss _ _ Hl). simpl.
    rewrite lookup_insert_is_Some. split.
    + intros [<- | [_ ?]]; auto.
    + intros [-> | Hm]; [by left |].
      destruct (decide (model = m)) as [-> |]; [by left | by right].
Qed.

(** X9: after any sequence of lookups on an empty cache, the cache
    holds an engine exactly for the models that were asked for, each
    entry is a live engine built for that very model, and two different
    models never share an engine. *)
Theorem cache_holds_one_engine_per_model (ms : list WhisperModelName) :
  let st := get_engines ms (mkStore ∅ ∅) in
  (∀ m, is_Some (ENGINES st !! m) ↔ m ∈ ms)
  ∧ (∀ m l, ENGINES st !! m = Some l →
            ∃ e, heap st !! l = Some e ∧ model_name e = m)
  ∧ (∀ m1 m2 l, ENGINES st !! m1 = Some l → ENGINES st !! m2 = Some l →
                m1 = m2).
Proof.
  intros st.
  assert (Hok : cache_ok st).
  { apply get_engines_cache_ok. intros m l Hm. simpl in Hm.
    by rewrite lookup_empty in Hm. }
  split; [| split; [exact Hok |]].
  - assert (Hkeys : ∀ ms st0 m,
      is_Some (ENGINES (get_engines ms st0) !! m)
      ↔ m ∈ ms ∨ is_Some (ENGINES st0 !! m)).
    { clear. induction ms as [|m0 ms IH]; intros st0 m; simpl.
      - rewrite elem_of_nil. tauto.
      - rewrite IH, get_engine_keys, elem_of_cons. tauto. }
    intros m. unfold st. rewrite Hkeys. simpl. rewrite lookup_empty.
    split; [intros [? | [? ?]]; done | auto].
  - intros m1 m2 l H1 H2.
    destruct (Hok m1 l H1) as (e1 & He1 & <-).
    destruct (Hok m2 l H2) as (e2 & He2 & <-). congruence.
Qed.

(** X10: a lookup never evicts or replaces anything: the entries of the
    other models and the engines already on the heap stay as they
    are. *)
Theorem get_engine_keeps_the_rest (model : WhisperModelName) (st : Store) :
  let st' := snd (get_engine model st) in
  (∀ m, m ≠ model → ENGINES st' !! m = ENGINES st !! m)
  ∧ (∀ l e, heap st !! l = Some e → heap st' !! l = Some e)
  ∧ (∀ l, ENGINES st !! model = Some l → ENGINES st' !! model = Some l).
Proof.
  destruct (ENGINES st !! model) as [l0|] eqn:Hl.
  - rewrite (get_engine_hit _ _ _ Hl). simpl. rewrite Hl. auto.
  - rewrite (get_engine_miss _ _ Hl). simpl. split; [| split; [| done]].
    + intros m Hne. by rewrite lookup_insert_ne.
    + intros l e He. rewrite lookup_insert_ne; [done |].
      intros <-. pose proof (is_fresh (dom (heap st))) as Hfresh.
      apply not_elem_of_dom in Hfresh. congruence.
Qed.

End EngineCacheMoreProperties.

(** ** More on concurrent first use *)

Section ConcurrentMoreProperties.
Import Concurrent.

(** X11: under every schedule at most one caller is between acquiring
    and releasing [_init_lock], and that caller holds the lock. *)
Theorem init_lock_mutual_exclusion (model : WhisperModelName) (n : nat)
    (sched : list (nat * bool)) (i j : nat) (p q : pc) :
  let c := run sched (init model n) in
  threads c !! i = Some p → threads c !! j = Some q →
  critical p = true → critical q = true →
  i = j ∧ lock c = Some i.
Proof.
  intros c Hi Hj Hp Hq.
  assert (HI : Inv c) by apply run_inv, init_inv.
  pose proof (inv_holder c HI i p Hi Hp) as Hli.
  pose proof (inv_holder c HI j q Hj Hq) as Hlj.
  split; [congruence | done].
Qed.

(** X12: when all callers are done the lock is free, also when the
    constructor raised in some of them. *)
Theorem init_lock_free_when_done (model : WhisperModelName) (n : nat)
    (sched : list (nat * bool)) :
  let c := run sched (init model n) in
  all_done c = true → lock c = None.
Proof.
  intros c Hdone.
  assert (HI : Inv c) by apply run_inv, init_inv.
  destruct (lock c) as [i|] eqn:Hl; [| done]. exfalso.
  destruct (inv_locked c HI i Hl) as (p & Hi & Hp).
  unfold all_done in Hdone.
  assert (Hf : finished p = true).
  { eapply forallb_forall in Hdone; [done |].
    apply list_elem_of_In, list_elem_of_lookup. eauto. }
  by destruct p.
Qed.

(** X13: a constructor that raises leaves the lock free and the engine
    without a model, with nothing built; the caller ends with the
    error, and every caller waiting for the lock can take it. *)
Theorem constructor_failure_releases_lock (model : WhisperModelName)
    (n : nat) (sched : list (nat * bool)) (i : nat) :
  let c := run sched (init model n) in
  threads c !! i = Some AtConstruct →
  let c' := run [(i, false)] c in
  threads c' = <[i := Raised (ModelError "")]> (threads c)
  ∧ lock c' = None ∧ _model (engine c') = None ∧ built c' = 0
  ∧ ∀ j, threads c' !! j = Some AtAcquire →
         ∃ c'', step j true c' = Some c''
                ∧ threads c'' !! j = Some AtRecheck
                ∧ lock c'' = Some j.
Proof.
  intros c Hi c'.
  assert (HI : Inv c) by apply run_inv, init_inv.
  destruct (inv_phase c HI i _ Hi) as [Hm Hb].
  assert (Hc' : c' = goto i (Raised (ModelError "")) (set_lock None c)).
  { unfold c'. simpl. unfold step. by rewrite Hi. }
  rewrite Hc'. simpl. repeat (split; [done |]).
  intros j Hj. simpl in Hj. unfold step. simpl. rewrite Hj. simpl. eexists.
  split; [reflexivity |]. simpl. split; [| done].
  apply list_lookup_insert_eq.
  apply lookup_lt_Some in Hj. by rewrite length_insert in *.
Qed.

(** A caller that arrives when the model is set returns it in two
    steps of its own, whatever the others are doing; it takes no lock
    and builds nothing. *)
Theorem ensure_model_fast_path (model : WhisperModelName) (n : nat)
    (sched : list (nat * bool)) (i : nat) (ok1 ok2 : bool) :
  let c := run sched (init model n) in
  threads c !! i = Some AtCheck → is_Some (_model (engine c)) →
  let c' := run [(i, ok1); (i, ok2)] c in
  threads c' = <[i := Returned (Some 0)]> (threads c)
  ∧ engine c' = engine c ∧ lock c' = lock c ∧ built c' = built c
  ∧ built c = 1.
Proof.
  intros c Hi [h Hh] c'.
  assert (HI : Inv c) by apply run_inv, init_inv.
  assert (Hh0 : _model (engine c) = Some 0 ∧ built c = 1).
  { destruct (inv_shared c HI) as [[? _] | [(? & _) | ?]]; congruence. }
  destruct Hh0 as [Hm Hb].
  pose proof (lookup_lt_Some _ _ _ Hi) as Hlt.
  assert (H1 : step i ok1 c = Some (goto i AtFastReturn c)).
  { unfold step. by rewrite Hi, Hm. }
  assert (H2 : step i ok2 (goto i AtFastReturn c)
               = Some (goto i (Returned (Some 0)) (goto i AtFastReturn c))).
  { unfold step. simpl. rewrite list_lookup_insert_eq by done.
    by rewrite Hm. }
  unfold c'. simpl. rewrite H1. simpl. rewrite H2. simpl.
  rewrite list_insert_insert_eq. auto.
Qed.

End ConcurrentMoreProperties.

(** ** The HTTP API *)

Section ApiProperties.
Import EngineCache ApiServer.
Context `{Environment} `{Platform}.

Lemma upload_loop_cons (chunk : bytes) (rest : list bytes)
    (max_bytes total : Z) (written : bytes) :
  chunk ≠ [] →
  upload_loop (chunk :: rest) max_bytes total written =
  if (total + Z.of_nat (length chunk) >? max_bytes)%Z then
    (true, (total + Z.of_nat (length chunk))%Z, written)
  else
    upload_loop rest max_bytes (total + Z.of_nat (length chunk))%Z
      (written ++ chunk).
Proof. by destruct chunk. Qed.

(** The loop writes a prefix of what it is given, counts what it writes,
    and raises exactly when the count passes the limit. *)
Lemma upload_loop_spec (chunks : list bytes) (max_bytes total : Z)
    (written : bytes) :
  Forall (fun c => c ≠ []) chunks →
  (total ≤ max_bytes)%Z →
  let data := concat chunks in
  ∃ w rest, data = w ++ rest ∧
    if (total + Z.of_nat (length data) >? max_bytes)%Z then
      ∃ total', upload_loop chunks max_bytes total written
                = (true, total', written ++ w)
        ∧ (max_bytes < total')%Z
        ∧ (total + Z.of_nat (length w) ≤ max_bytes)%Z
        ∧ (Forall (fun c => (Z.of_nat (length c) ≤ 1024 * 1024)%Z) chunks →
           total' ≤ max_bytes + 1024 * 1024)%Z
    else
      upload_loop chunks max_bytes total written
      = (false, (total + Z.of_nat (length data))%Z, written ++ data)
      ∧ rest = [].
Proof.
  revert total written.
  induction chunks as [|c rest IH]; intros total written Hne Htotal.
  - exists [], []. split; [done |]. simpl.
    change (Z.of_nat 0) with 0%Z. rewrite Z.add_0_r.
    destruct (Z.gtb_spec total max_bytes) as [Hgt | Hle]; [lia |].
    by rewrite app_nil_r.
  - apply Forall_cons in Hne as [Hc Hrest].
    rewrite (upload_loop_cons c rest _ _ _ Hc).
    change (concat (c :: rest)) with (c ++ concat rest).
    cbv zeta. rewrite length_app, Nat2Z.inj_add, Z.add_assoc.
    destruct (Z.gtb_spec (total + Z.of_nat (length c)) max_bytes)
      as [Hgt | Hle].
    + exists [], (c ++ concat rest). split; [done |].
      destruct (Z.gtb_spec
                  (total + Z.of_nat (length c)
                   + Z.of_nat (length (concat rest)))
                  max_bytes) as [_ | Hcontra]; [| lia].
      eexists. split; [by rewrite app_nil_r |]. simpl.
      split; [lia |]. split; [lia |].
      intros [Hlen _]%Forall_cons. lia.
    + destruct (IH (total + Z.of_nat (length c))%Z (written ++ c) Hrest)
        as (w & rest' & Hdata & Hloop); [lia |].
      exists (c ++ w), rest'. split; [by rewrite Hdata, app_assoc |].
      cbv zeta in Hloop.
      destruct (total + Z.of_nat (length c)
                + Z.of_nat (length (concat rest)) >? max_bytes)%Z.
      * destruct Hloop as (total' & Hloop & Hgt & Hle' & Hbound).
        exists total'. rewrite Hloop, <- app_assoc.
        split; [done |]. split; [done |]. rewrite length_app.
        split; [lia |]. intros [_ Hall]%Forall_cons. auto.
      * destruct Hloop as [Hloop ->]. by rewrite Hloop, <- app_assoc.
Qed.

Lemma transcribe_file_accepted (file : UploadFile)
    (model : WhisperModelName) (language : option string) (beam_size : Z)
    (vad_filter : bool) (max_upload_mb : Z) (sv : Server) :
  accepted file →
  transcribe_file file model language beam_size vad_filter max_upload_mb sv
  = let tmp := tmp_of file (os sv) in
    let '(too_large, total, written) :=
      upload_loop (chunks file) (max_upload_mb * 1024 * 1024) 0 [] in
    let w1 := uploaded tmp written (os sv) in
    if too_large then
      (Failed (HTTPException 413
                 ("File too large (>" +:+ pretty.pretty max_upload_mb
                  +:+ "MB).")),
       mkServer (store sv) w1)
    else
      let '(r, sv') :=
        respond tmp model language beam_size vad_filter total
          (mkServer (store sv) w1) in
      (r, mkServer (store sv') (remove_quietly tmp (os sv'))).
Proof.
  intros [Hct Hext]. unfold transcribe_file.
  assert (Hmime : truthy (default "" (content_type file))
                  && negb (bool_decide
                             (default "" (content_type file) ∈ ALLOWED_MIME))
                  = false).
  { destruct Hct as [-> | Hin]; [done |].
    by rewrite (bool_decide_eq_true_2 _ Hin), andb_false_r. }
  rewrite Hmime. fold (suffix_of file).
  assert (Hsuffix : truthy (suffix_of file)
                    && negb (bool_decide (suffix_of file ∈ ALLOWED_EXT))
                    = false).
  { destruct Hext as [-> | Hin]; [done |].
    by rewrite (bool_decide_eq_true_2 _ Hin), andb_false_r. }
  rewrite Hsuffix. reflexivity.
Qed.

(** With a sound cache the handler finds or makes the engine and runs
    [transcribe] on it. *)
Lemma respond_eq (tmp : string) (model : WhisperModelName)
    (language : option string) (beam_size : Z) (vad_filter : bool)
    (total : Z) (sv : Server) :
  cache_ok (store sv) →
  respond tmp model language beam_size vad_filter total sv =
  let inner :=
    transcribe tmp language beam_size vad_filter
      (mkState (engine_for model (store sv)) (os sv)) in
  (reply_of model total (fst inner),
   mkServer
     (mkStore
        (<[slot_for model (store sv) := self (snd inner)]> (heap (store sv)))
        (<[model := slot_for model (store sv)]> (ENGINES (store sv))))
     (world (snd inner))).
Proof.
  intros Hok. unfold respond, slot_for, engine_for.
  destruct (ENGINES (store sv) !! model) as [l|] eqn:Hl.
  - rewrite (get_engine_hit _ _ _ Hl).
    destruct (Hok model l Hl) as (e & He & _). rewrite He. simpl.
    rewrite (insert_id (ENGINES (store sv)) model l Hl).
    by destruct (transcribe tmp language beam_size vad_filter _)
      as [[r|e'] s'].
  - rewrite (get_engine_miss _ _ Hl). simpl.
    rewrite lookup_insert_eq.
    destruct (transcribe tmp language beam_size vad_filter _)
      as [[r|e'] s']; simpl; by rewrite insert_insert_eq.
Qed.

(** X14: a content type that is given and is not one of the ten allowed
    ones is answered with 415; no file is created and no engine is
    looked up. *)
Theorem upload_rejected_for_content_type (file : UploadFile)
    (model : WhisperModelName) (language : option string) (beam_size : Z)
    (vad_filter : bool) (max_upload_mb : Z) (sv : Server) (ct : string) :
  content_type file = Some ct → ct ≠ "" → ct ∉ ALLOWED_MIME →
  transcribe_file file model language beam_size vad_filter max_upload_mb sv
  = (Failed (HTTPException 415 ("Unsupported content-type: " +:+ ct)), sv).
Proof.
  intros Hct Hne Hnot. unfold transcribe_file. rewrite Hct. simpl.
  rewrite (bool_decide_eq_false_2 _ Hnot).
  by destruct ct.
Qed.

(** X15: when the content type passes, a file name whose lower-cased
    extension is not empty and not one of the six allowed ones is
    answered with 415; no file is created and no engine is looked
    up. *)
Theorem upload_rejected_for_extension (file : UploadFile)
    (model : WhisperModelName) (language : option string) (beam_size : Z)
    (vad_filter : bool) (max_upload_mb : Z) (sv : Server) :
  (default "" (content_type file) = ""
   ∨ default "" (content_type file) ∈ ALLOWED_MIME) →
  suffix_of file ≠ "" → suffix_of file ∉ ALLOWED_EXT →
  transcribe_file file model language beam_size vad_filter max_upload_mb sv
  = (Failed (HTTPException 415
               ("Unsupported file extension: " +:+ suffix_of file)), sv).
Proof.
  intros Hct Hne Hnot. unfold transcribe_file.
  assert (Hmime : truthy (default "" (content_type file))
                  && negb (bool_decide
                             (default "" (content_type file) ∈ ALLOWED_MIME))
                  = false).
  { destruct Hct as [-> | Hin]; [done |].
    by rewrite (bool_decide_eq_true_2 _ Hin), andb_false_r. }
  rewrite Hmime. fold (suffix_of file).
  rewrite (bool_decide_eq_false_2 _ Hnot).
  by destruct (suffix_of file).
Qed.

(** On a path that exists and with a beam size in range, [transcribe]
    returns what inference yields, shaped, and raises only what the
    constructor or inference raise. *)
Lemma transcribe_valid_outcome (audio_path : string)
    (language : option string) (beam_size : Z) (vad_filter : bool)
    (s : State) :
  audio_path ≠ "" → is_Some (files (world s) !! audio_path) →
  (1 ≤ beam_size ≤ 10)%Z →
  match fst (transcribe audio_path language beam_size vad_filter s) with
  | Return r =>
      ∃ segments info,
        infer (ready_handle s) (files (world s)) audio_path (lang language)
          beam_size vad_filter = Return (segments, info)
        ∧ r = mkResult (strip (join (map seg_text segments)))
                (info_language info) (info_language_probability info)
                (clock (S (ticks (world s))) - clock (ticks (world s)))%float
  | Raise e =>
      (∃ msg, e = ModelError msg ∧ _model (self s) = None
              ∧ load_error (value (model_name (self s))) (device (self s))
                  (compute_type (self s)) = Some msg)
      ∨ infer (ready_handle s) (files (world s)) audio_path (lang language)
          beam_size vad_filter = Raise e
  end.
Proof.
  intros Hne Hsome Hbeam.
  destruct (_model (self s)) as [h|] eqn:Hm.
  - rewrite transcribe_valid by (done || congruence).
    destruct (infer _ _ _ _ _ _) as [[segs info]|e] eqn:Hi; simpl; eauto.
  - destruct (load_error (value (model_name (self s))) (device (self s))
                (compute_type (self s))) as [msg|] eqn:Hload.
    + rewrite transcribe_present by done.
      replace ((beam_size <? 1)%Z || (beam_size >? 10)%Z) with false
        by (symmetry; apply orb_false_iff; lia).
      unfold bind. rewrite ensure_model_eq. simpl. rewrite Hm, Hload.
      simpl. left. eauto.
    + rewrite transcribe_valid by done.
      destruct (infer _ _ _ _ _ _) as [[segs info]|e] eqn:Hi; simpl; eauto.
Qed.

(** X16: an accepted upload that is larger than the limit is answered
    with 413.  The engine cache is not touched and nothing is
    transcribed.  The temporary file is not removed: it stays, holding
    the chunks written before the limit was passed, which are a prefix
    of the upload of at most the limit's size. *)
Theorem upload_too_large (file : UploadFile) (model : WhisperModelName)
    (language : option string) (beam_size : Z) (vad_filter : bool)
    (max_upload_mb : Z) (sv : Server) :
  accepted file →
  Forall (fun c => c ≠ []) (chunks file) →
  (0 ≤ max_upload_mb)%Z →
  (max_upload_mb * 1024 * 1024
   < Z.of_nat (length (concat (chunks file))))%Z →
  let out := transcribe_file file model language beam_size vad_filter
               max_upload_mb sv in
  fst out = Failed (HTTPException 413
                      ("File too large (>" +:+ pretty.pretty max_upload_mb
                       +:+ "MB)."))
  ∧ store (snd out) = store sv
  ∧ ∃ written rest,
      concat (chunks file) = written ++ rest
      ∧ (Z.of_nat (length written) ≤ max_upload_mb * 1024 * 1024)%Z
      ∧ os (snd out) = uploaded (tmp_of file (os sv)) written (os sv).
Proof.
  intros Hacc Hne Hmb Hbig out. subst out.
  rewrite transcribe_file_accepted by done. cbv zeta.
  destruct (upload_loop_spec (chunks file) (max_upload_mb * 1024 * 1024) 0
              [] Hne) as (w & rest & Hdata & Hloop); [lia |].
  cbv zeta in Hloop.
  destruct (Z.gtb_spec (0 + Z.of_nat (length (concat (chunks file))))
              (max_upload_mb * 1024 * 1024)) as [_ | Hle]; [| lia].
  destruct Hloop as (total' & Hloop & _ & Hw & _).
  rewrite Hloop. simpl. split; [done |]. split; [done |].
  exists w, rest. split; [done |]. split; [lia | done].
Qed.

(** X17: an accepted upload within the limit is copied whole into the
    temporary file; the handler runs [transcribe] on that file with the
    engine that the cache has or makes for the model, answers with
    what comes back (the result as a body that carries the model's
    value and the size of the upload, an error as it is), keeps the
    engine in the cache, and has removed the file, whichever way
    [transcribe] ended. *)
Theorem handler_delegates_and_cleans_up (file : UploadFile)
    (model : WhisperModelName) (language : option string) (beam_size : Z)
    (vad_filter : bool) (max_upload_mb : Z) (sv : Server) :
  accepted file →
  Forall (fun c => c ≠ []) (chunks file) →
  (0 ≤ max_upload_mb)%Z →
  (Z.of_nat (length (concat (chunks file)))
   ≤ max_upload_mb * 1024 * 1024)%Z →
  cache_ok (store sv) →
  let data := concat (chunks file) in
  let tmp := tmp_of file (os sv) in
  let inner :=
    transcribe tmp language beam_size vad_filter
      (mkState (engine_for model (store sv)) (uploaded tmp data (os sv))) in
  let out := transcribe_file file model language beam_size vad_filter
               max_upload_mb sv in
  fst out = reply_of model (Z.of_nat (length data)) (fst inner)
  ∧ files (os (snd out)) = delete tmp (files (os sv))
  ∧ heap (store (snd out)) !! slot_for model (store sv)
    = Some (self (snd inner))
  ∧ ENGINES (store (snd out))
    = <[model := slot_for model (store sv)]> (ENGINES (store sv))
  ∧ ∃ evs, trace (os (snd out))
             = trace (os sv) ++ [EvTempFile tmp] ++ evs ++ [EvRemove tmp]
           ∧ temp_files evs = [].
Proof.
  intros Hacc Hne Hmb Hfit Hok data tmp inner out. subst out.
  rewrite transcribe_file_accepted by done. cbv zeta. fold tmp.
  destruct (upload_loop_spec (chunks file) (max_upload_mb * 1024 * 1024) 0
              [] Hne) as (w & rest & Hdata & Hloop); [lia |].
  cbv zeta in Hloop.
  destruct (Z.gtb_spec (0 + Z.of_nat (length (concat (chunks file))))
              (max_upload_mb * 1024 * 1024)) as [Hgt | _]; [lia |].
  destruct Hloop as [Hloop _]. rewrite Hloop. simpl.
  fold data. rewrite respond_eq by done. simpl. fold inner.
  destruct (transcribe_world tmp language beam_size vad_filter
              (mkState (engine_for model (store sv))
                 (uploaded tmp data (os sv))))
    as (Hfiles & evs & Htrace & Htemps).
  fold inner in Hfiles, Htrace. simpl in Hfiles, Htrace.
  assert (Htmp : files (world (snd inner)) !! tmp = Some data)
    by (rewrite Hfiles; apply lookup_insert_eq).
  unfold remove_quietly. rewrite Htmp. simpl.
  split; [done |]. split; [by rewrite Hfiles, delete_insert_eq |].
  split; [by rewrite lookup_insert_eq |]. split; [done |].
  exists evs. split; [| done]. rewrite Htrace. by rewrite <- !app_assoc.
Qed.

(** X18: for an accepted upload within the limit, a beam size in 1..10
    and a temporary file with a name, the guards of [transcribe] never
    fire: a body is answered only from what inference yielded on the
    uploaded bytes, and every error is the constructor's or
    inference's own. *)
Theorem validated_request_reaches_inference (file : UploadFile)
    (model : WhisperModelName) (language : option string) (beam_size : Z)
    (vad_filter : bool) (max_upload_mb : Z) (sv : Server) :
  accepted file →
  Forall (fun c => c ≠ []) (chunks file) →
  (0 ≤ max_upload_mb)%Z →
  (Z.of_nat (length (concat (chunks file)))
   ≤ max_upload_mb * 1024 * 1024)%Z →
  cache_ok (store sv) →
  (1 ≤ beam_size ≤ 10)%Z →
  tmp_of file (os sv) ≠ "" →
  let data := concat (chunks file) in
  let tmp := tmp_of file (os sv) in
  let engine := engine_for model (store sv) in
  let h := ready_handle (mkState engine (os sv)) in
  let fs := <[tmp := data]> (files (os sv)) in
  match fst (transcribe_file file model language beam_size vad_filter
               max_upload_mb sv) with
  | Ok body =>
      ∃ segments info,
        infer h fs tmp (lang language) beam_size vad_filter
          = Return (segments, info)
        ∧ body = mkBody (strip (join (map seg_text segments)))
                   (value model) (info_language info)
                   (info_language_probability info)
                   (round_ndigits
                      (clock (S (ticks (os sv))) - clock (ticks (os sv)))
                      3)
                   (Z.of_nat (length data))
  | Failed e =>
      ∃ e', e = Uncaught e'
        ∧ ((∃ msg, e' = ModelError msg ∧ _model engine = None
                   ∧ load_error (value (model_name engine)) (device engine)
                       (compute_type engine) = Some msg)
           ∨ infer h fs tmp (lang language) beam_size vad_filter = Raise e')
  end.
Proof.
  intros Hacc Hne Hmb Hfit Hok Hbeam Htmp data tmp engine h fs.
  rewrite transcribe_file_accepted by done. cbv zeta. fold tmp.
  destruct (upload_loop_spec (chunks file) (max_upload_mb * 1024 * 1024) 0
              [] Hne) as (w & rest & Hdata & Hloop); [lia |].
  cbv zeta in Hloop.
  destruct (Z.gtb_spec (0 + Z.of_nat (length (concat (chunks file))))
              (max_upload_mb * 1024 * 1024)) as [Hgt | _]; [lia |].
  destruct Hloop as [Hloop _]. rewrite Hloop. simpl.
  fold data. rewrite respond_eq by done. simpl. fold engine.
  pose proof (transcribe_valid_outcome tmp language beam_size vad_filter
                (mkState engine (uploaded tmp data (os sv))) Htmp) as Hout.
  simpl in Hout. fold fs in Hout.
  change (ready_handle (mkState engine (uploaded tmp data (os sv))))
    with h in Hout.
  specialize (Hout ltac:(unfold fs; rewrite lookup_insert_eq; eauto) Hbeam).
  destruct (fst (transcribe tmp language beam_size vad_filter _))
    as [r|e]; simpl.
  - destruct Hout as (segs & info & Hi & ->). by exists segs, info.
  - exists e. split; [done |]. exact Hout.
Qed.

(** X19: an upload within the limit is copied whole, in order, and
    the bytes counted are its length. *)
Theorem upload_copied_whole (chunks : list bytes) (max_bytes : Z) :
  Forall (fun c => c ≠ []) chunks →
  (Z.of_nat (length (concat chunks)) ≤ max_bytes)%Z →
  upload_loop chunks max_bytes 0 []
  = (false, Z.of_nat (length (concat chunks)), concat chunks).
Proof.
  intros Hne Hfit.
  destruct (upload_loop_spec chunks max_bytes 0 [] Hne)
    as (w & rest & Hdata & Hloop); [lia |].
  cbv zeta in Hloop.
  destruct (Z.gtb_spec (0 + Z.of_nat (length (concat chunks))) max_bytes)
    as [Hgt | _]; [lia |].
  by destruct Hloop as [-> _].
Qed.

(** X20: an upload beyond the limit is cut off at the first chunk that
    passes it: what was written is a prefix of the upload no longer
    than the limit, and with chunks of at most 1 MiB at most 1 MiB
    beyond the limit was read. *)
Theorem upload_cut_off_at_limit (chunks : list bytes) (max_bytes : Z) :
  Forall (fun c => c ≠ []) chunks →
  Forall (fun c => (Z.of_nat (length c) ≤ 1024 * 1024)%Z) chunks →
  (0 ≤ max_bytes < Z.of_nat (length (concat chunks)))%Z →
  ∃ total written rest,
    upload_loop chunks max_bytes 0 [] = (true, total, written)
    ∧ concat chunks = written ++ rest
    ∧ (Z.of_nat (length written) ≤ max_bytes < total)%Z
    ∧ (total ≤ max_bytes + 1024 * 1024)%Z.
Proof.
  intros Hne Hsize [Hmax Hbig].
  destruct (upload_loop_spec chunks max_bytes 0 [] Hne)
    as (w & rest & Hdata & Hloop); [lia |].
  cbv zeta in Hloop.
  destruct (Z.gtb_spec (0 + Z.of_nat (length (concat chunks))) max_bytes)
    as [_ | Hle]; [| lia].
  destruct Hloop as (total & Hloop & Hgt & Hw & Hbound).
  exists total, w, rest. rewrite Hloop. split; [done |]. split; [done |].
  split; [lia | exact (Hbound Hsize)].
Qed.

(** X21: an empty chunk ends the upload: what follows it is not read. *)
Theorem upload_ends_at_empty_chunk (before after : list bytes)
    (max_bytes total : Z) (written : bytes) :
  upload_loop (before ++ [] :: after) max_bytes total written
  = upload_loop before max_bytes total written.
Proof.
  revert total written.
  induction before as [|c before IH]; intros total written; [done |].
  destruct c as [|b c]; [done |].
  change (((b :: c) :: before) ++ [] :: after)
    with ((b :: c) :: (before ++ [] :: after)).
  rewrite !upload_loop_cons by done.
  destruct (_ >? _)%Z; [done | apply IH].
Qed.

End ApiProperties.

(** ** The HTTP API over several requests *)

Section ServingProperties.
Import EngineCache ApiServer.
Context `{Environment} `{Platform}.

Lemma slot_for_facts (model : WhisperModelName) (st : Store) :
  cache_ok st →
  (∀ m l, ENGINES st !! m = Some l → m ≠ model → l ≠ slot_for model st)
  ∧ model_name (engine_for model st) = model
  ∧ match ENGINES st !! model with
    | Some l => slot_for model st = l
                ∧ heap st !! l = Some (engine_for model st)
    | None => heap st !! slot_for model st = None
              ∧ _model (engine_for model st) = None
    end.
Proof.
  intros Hok. unfold slot_for, engine_for.
  destruct (ENGINES st !! model) as [l0|] eqn:Hl.
  - destruct (Hok model l0 Hl) as (e0 & He0 & Hname0). rewrite He0. simpl.
    split; [| done]. intros m l Hm Hne ->.
    destruct (Hok m l0 Hm) as (e & He & Hname). congruence.
  - pose proof (is_fresh (dom (heap st))) as Hfresh.
    apply not_elem_of_dom in Hfresh. split; [| done].
    intros m l Hm Hne Heq. destruct (Hok m l Hm) as (e & He & _).
    congruence.
Qed.

(** Putting the engine back after a call keeps cache and models
    together. *)
Lemma linked_update (st : Store) (ms ms' : list (string * string * string))
    (model : WhisperModelName) (e' : WhisperSTT) :
  linked st ms →
  model_name e' = model →
  (e' = engine_for model st ∧ ms' = ms)
  ∨ (_model (engine_for model st) = None ∧ _model e' = Some (length ms)
     ∧ ms' = ms ++ [(value model, device e', compute_type e')]) →
  linked
    (mkStore (<[slot_for model st := e']> (heap st))
       (<[model := slot_for model st]> (ENGINES st)))
    ms'.
Proof.
  intros (Hok & Hfwd & Hback) Hname Hcases.
  destruct (slot_for_facts model st Hok) as (Hother & Hname0 & Hslot).
  set (slot := slot_for model st) in *.
  assert (Hold : ∀ m l e, m ≠ model → ENGINES st !! m = Some l →
                 heap st !! l = Some e →
                 <[slot := e']> (heap st) !! l = Some e).
  { intros m l e Hne Hm He. rewrite lookup_insert_ne; [done |].
    intros <-. by eapply Hother. }
  assert (Hmine : ∀ l e h, ENGINES st !! model = Some l →
                  heap st !! l = Some e → _model e = Some h →
                  e = engine_for model st).
  { intros l e h Hm He _. rewrite Hm in Hslot. destruct Hslot as [_ He0].
    congruence. }
  split; [| split]; simpl.
  - (* cache_ok *)
    intros m l Hm. simpl in *.
    apply lookup_insert_Some in Hm as [[<- <-] | [Hne Hm]].
    + exists e'. by rewrite lookup_insert_eq.
    + destruct (Hok m l Hm) as (e & He & Hn). exists e.
      split; [| done]. by eapply Hold.
  - (* forward *)
    intros m l e h Hm He Hh.
    apply lookup_insert_Some in Hm as [[<- <-] | [Hne Hm]].
    + rewrite lookup_insert_eq in He. injection He as <-.
      destruct Hcases as [[-> ->] | (Hnone & Hbuilt & ->)].
      * destruct (ENGINES st !! model) as [l0|] eqn:Hl0.
        -- destruct Hslot as [Hs He0]. subst slot. rewrite Hs in *.
           by eapply Hfwd.
        -- destruct Hslot as [_ Hn]. congruence.
      * rewrite Hbuilt in Hh. injection Hh as <-.
        by rewrite lookup_app_r, Nat.sub_diag.
    + assert (Hl : l ≠ slot) by (by eapply Hother).
      rewrite lookup_insert_ne in He by done.
      pose proof (Hfwd m l e h Hm He Hh) as Hms.
      destruct Hcases as [[_ ->] | (_ & _ & ->)]; [done |].
      by apply lookup_app_l_Some.
  - (* backward *)
    intros h c Hc.
    assert (Hkeep : ms !! h = Some c →
      ∃ m l e,
        <[model := slot]> (ENGINES st) !! m = Some l
        ∧ <[slot := e']> (heap st) !! l = Some e ∧ _model e = Some h
        ∧ c = (value m, device e, compute_type e)).
    { intros Hms. destruct (Hback h c Hms) as (m & l & e & Hm & He & Hh & ->).
      destruct (decide (m = model)) as [-> | Hne].
      - pose proof (Hmine l e h Hm He Hh) as ->.
        destruct Hcases as [[-> _] | (Hnone & _)]; [| congruence].
        rewrite Hm in Hslot. destruct Hslot as [Hs _]. subst slot.
        rewrite Hs. exists model, l, (engine_for model st).
        by rewrite !lookup_insert_eq.
      - exists m, l, e. rewrite lookup_insert_ne by done.
        split; [done |]. split; [by eapply Hold | done]. }
    destruct Hcases as [[_ ->] | (Hnone & Hbuilt & ->)]; [by apply Hkeep |].
    apply lookup_app_Some in Hc as [Hc | [Hlen Hc]]; [by apply Hkeep |].
    destruct (h - length ms) as [|k] eqn:Hk; [| done].
    injection Hc as <-. assert (h = length ms) as -> by lia.
    exists model, slot, e'. by rewrite !lookup_insert_eq.
Qed.

Lemma rejected_or_accepted (file : UploadFile) (model : WhisperModelName)
    (language : option string) (beam_size : Z) (vad_filter : bool)
    (max_upload_mb : Z) (sv : Server) :
  (∃ d, transcribe_file file model language beam_size vad_filter
          max_upload_mb sv = (Failed (HTTPException 415 d), sv))
  ∨ accepted file.
Proof.
  assert (Hcheck : ∀ (x : string) (allowed : list string),
    truthy x && negb (bool_decide (x ∈ allowed)) = false →
    x = "" ∨ x ∈ allowed).
  { intros x allowed Hx. destruct x as [|c x]; [by left |]. right.
    simpl in Hx. apply negb_false_iff in Hx.
    by apply bool_decide_eq_true_1 in Hx. }
  unfold transcribe_file, accepted.
  destruct (truthy (default "" (content_type file)) && _) eqn:Hct;
    [left; eauto |].
  fold (suffix_of file).
  destruct (truthy (suffix_of file) && _) eqn:Hext; [left; eauto |].
  right. split; by apply Hcheck.
Qed.

Lemma remove_quietly_models (p : string) (w : World) :
  models (remove_quietly p w) = models w.
Proof. unfold remove_quietly. by destruct (files w !! p). Qed.

(** A request keeps cache and models together. *)
Lemma handle_linked (r : Request) (sv : Server) :
  linked (store sv) (models (os sv)) →
  linked (store (snd (handle r sv))) (models (os (snd (handle r sv)))).
Proof.
  intros Hlinked. unfold handle.
  destruct (rejected_or_accepted (req_file r) (req_model r) (req_language r)
              (req_beam_size r) (req_vad_filter r) (req_max_upload_mb r) sv)
    as [[d ->] | Hacc]; [done |].
  rewrite transcribe_file_accepted by done. cbv zeta.
  destruct (upload_loop _ _ _ _) as [[big total] written].
  destruct big; [done |].
  assert (Hok : cache_ok (store sv)) by apply Hlinked.
  rewrite respond_eq by done. simpl.
  rewrite remove_quietly_models.
  set (tmp := tmp_of (req_file r) (os sv)).
  set (engine := engine_for (req_model r) (store sv)).
  set (s := mkState engine (uploaded tmp written (os sv))).
  destruct (transcribe_step tmp (req_language r) (req_beam_size r)
              (req_vad_filter r) s) as (evs & _ & _ & _ & Hcases).
  destruct (slot_for_facts (req_model r) (store sv) Hok)
    as (_ & Hname & _). fold engine in Hname.
  apply (linked_update (store sv) (models (os sv))); [done | |].
  - destruct Hcases as [(-> & _) | (_ & -> & _)]; done.
  - destruct Hcases as [(Hself & Hms & _) | (Hnone & Hself & Hms)].
    + left. by rewrite Hself, Hms.
    + right. rewrite Hself, Hms. simpl. unfold config_of. simpl.
      by rewrite Hname.
Qed.

Lemma serve_linked (rs : list Request) (sv : Server) :
  linked (store sv) (models (os sv)) →
  linked (store (serve rs sv)) (models (os (serve rs sv))).
Proof.
  revert sv. induction rs as [|r rs IH]; intros sv Hl; [done |].
  simpl. by apply IH, handle_linked.
Qed.

Lemma value_inj (m1 m2 : WhisperModelName) : value m1 = value m2 → m1 = m2.
Proof. by destruct m1, m2. Qed.

(** X22: however many requests the server has answered since it
    started, it has built at most one model per model name, hence five
    at most, and each entry of its cache is an engine of the model it
    is filed under. *)
Theorem server_builds_one_model_per_name (rs : list Request) :
  let sv := serve rs new_server in
  let names := (fun c : string * string * string => c.1.1)
               <$> models (os sv) in
  NoDup names
  ∧ (∀ name, name ∈ names → name ∈ choices)
  ∧ (length (models (os sv)) ≤ 5)%nat
  ∧ cache_ok (store sv).
Proof.
  intros sv names.
  assert (Hlinked : linked (store sv) (models (os sv))).
  { apply serve_linked. unfold new_server. simpl. split; [| split]; simpl.
    - intros m l Hm. simpl in Hm. by rewrite lookup_empty in Hm.
    - intros m l e h Hm. by rewrite lookup_empty in Hm.
    - intros h c Hc. by rewrite lookup_nil in Hc. }
  destruct Hlinked as (Hok & Hfwd & Hback).
  assert (Hnodup : NoDup names).
  { apply NoDup_alt. intros i j name Hi Hj. unfold names in *.
    rewrite list_lookup_fmap in Hi, Hj.
    destruct (models (os sv) !! i) as [ci|] eqn:Hci; [| done].
    destruct (models (os sv) !! j) as [cj|] eqn:Hcj; [| done].
    simpl in *. injection Hi as Hi. injection Hj as Hj.
    destruct (Hback i ci Hci) as (mi & li & ei & Hmi & Hei & Hhi & ->).
    destruct (Hback j cj Hcj) as (mj & lj & ej & Hmj & Hej & Hhj & ->).
    simpl in *. subst name. apply value_inj in Hj as ->.
    congruence. }
  assert (Hin : ∀ name, name ∈ names → name ∈ choices).
  { intros name [c [-> Hc]]%list_elem_of_fmap.
    apply list_elem_of_lookup in Hc as [h Hc].
    destruct (Hback h c Hc) as (m & l & e & _ & _ & _ & ->). simpl.
    apply list_elem_of_fmap. exists m. split; [done |].
    apply list_elem_of_In. destruct m; simpl; tauto. }
  split; [done |]. split; [done |]. split; [| done].
  replace (length (models (os sv))) with (length names)
    by apply length_fmap.
  change 5 with (length choices).
  apply submseteq_length, NoDup_submseteq; done.
Qed.

End ServingProperties.

(** ** The first UI *)

Section AppProperties.
Import App.
Context `{Environment} `{Platform}.

Lemma load_model_hit (n : string) (p : Process) (lm : LoadedModel) :
  _MODEL p = Some lm → name lm = n →
  load_model n p = (Return (model lm), p).
Proof.
  intros Hm Hn. unfold load_model. rewrite Hm, Hn.
  by rewrite String.eqb_refl.
Qed.

Lemma load_model_miss (n : string) (p : Process) :
  (∀ lm, _MODEL p = Some lm → name lm ≠ n) →
  load_model n p =
  match build_model n "cuda" "float16" (app_world p) with
  | (Raise e, w) => (Raise e, mkProcess (_MODEL p) w)
  | (Return m, w) => (Return m, mkProcess (Some (mkLoaded n m)) w)
  end.
Proof.
  intros Hmiss. unfold load_model.
  destruct (_MODEL p) as [lm|] eqn:Hm; [| done].
  destruct (String.eqb_spec (name lm) n) as [Heq | Hne]; [| done].
  by destruct (Hmiss lm).
Qed.

(** X23: [load_model] is idempotent: after it has returned a model for
    a name, a second call for that name returns the same model and
    changes nothing. *)
Theorem load_model_twice (n : string) (p p1 : Process) (h : nat) :
  load_model n p = (Return h, p1) →
  load_model n p1 = (Return h, p1).
Proof.
  unfold load_model at 1.
  destruct (_MODEL p) as [lm|] eqn:Hm.
  - destruct (String.eqb_spec (name lm) n) as [Heq | Hne].
    + intros [= <- <-]. by apply load_model_hit.
    + simpl. unfold build_model.
      destruct (load_error n "cuda" "float16"); [done |].
      intros [= <- <-]. by apply (load_model_hit n _ (mkLoaded n _)).
  - simpl. unfold build_model.
    destruct (load_error n "cuda" "float16"); [done |].
    intros [= <- <-]. by apply (load_model_hit n _ (mkLoaded n _)).
Qed.

(** X24: only one model is kept.  Asking for another name builds that
    model and drops the one held; asking for the first name again
    builds it anew. *)
Theorem load_model_keeps_one_model (n : string) (p : Process)
    (lm : LoadedModel) :
  _MODEL p = Some lm → name lm ≠ n →
  load_error n "cuda" "float16" = None →
  load_error (name lm) "cuda" "float16" = None →
  let ms := models (app_world p) in
  let p1 := load_models [n] p in
  let p2 := load_models [n; name lm] p in
  _MODEL p1 = Some (mkLoaded n (length ms))
  ∧ models (app_world p1) = ms ++ [(n, "cuda", "float16")]
  ∧ _MODEL p2 = Some (mkLoaded (name lm) (S (length ms)))
  ∧ models (app_world p2)
    = ms ++ [(n, "cuda", "float16"); (name lm, "cuda", "float16")].
Proof.
  intros Hm Hne Hn Hl ms p1 p2.
  assert (H1 : load_model n p
    = (Return (length ms),
       mkProcess (Some (mkLoaded n (length ms)))
         (mkWorld (files (app_world p)) (ticks (app_world p))
            (ms ++ [(n, "cuda", "float16")])
            (trace (app_world p) ++ [EvLoad n "cuda" "float16"])))).
  { rewrite load_model_miss by (intros lm' Hlm'; congruence).
    unfold build_model. by rewrite Hn. }
  unfold p2, p1. simpl. rewrite H1. simpl.
  split; [done |]. split; [done |].
  rewrite load_model_miss by (simpl; intros lm' [= <-]; simpl; congruence).
  unfold build_model. rewrite Hl. simpl.
  rewrite length_app, <- app_assoc. simpl.
  by rewrite Nat.add_1_r.
Qed.

(** X25: when the constructor raises, [load_model] raises its error and
    the model held before stays in place. *)
Theorem load_model_failure_keeps_previous (n : string) (p : Process)
    (msg : string) :
  (∀ lm, _MODEL p = Some lm → name lm ≠ n) →
  load_error n "cuda" "float16" = Some msg →
  load_model n p =
  (Raise (ModelError msg),
   mkProcess (_MODEL p)
     (mkWorld (files (app_world p)) (ticks (app_world p))
        (models (app_world p))
        (trace (app_world p) ++ [EvLoad n "cuda" "float16"]))).
Proof.
  intros Hmiss Hload. rewrite load_model_miss by done.
  unfold build_model. by rewrite Hload.
Qed.

(** X27: the first UI checks no range of the beam size and always
    turns the VAD filter on: for a path that exists and a model that
    loads, inference is called with the beam size as it came, whatever
    it is, and with the language normalised. *)
Theorem app_transcribe_passes_beam_size (audio_path model_name
    language : string) (beam_size : Z) (p p1 : Process) (h : nat) :
  audio_path ≠ "" → is_Some (files (app_world p) !! audio_path) →
  load_model model_name p = (Return h, p1) →
  let out := transcribe audio_path model_name language beam_size p in
  trace (app_world (snd out))
  = trace (app_world p1)
    ++ [EvInfer h audio_path (App.lang language) beam_size true]
  ∧ files (app_world (snd out)) = files (app_world p1)
  ∧ _MODEL (snd out) = _MODEL p1
  ∧ ∀ msg, fst out = Raise (ValueError msg) →
           infer h (files (app_world p1)) audio_path (App.lang language)
             beam_size true = Raise (ValueError msg).
Proof.
  intros Hne Hsome Hload out. subst out. unfold transcribe.
  rewrite bool_decide_eq_true_2 by done.
  destruct audio_path as [|c a]; [done |]. simpl. rewrite Hload.
  destruct (infer h _ _ _ _ _) as [[segs info]|e]; simpl.
  - repeat (split; [done |]). by intros msg.
  - repeat (split; [done |]). by intros msg [= ->].
Qed.

End AppProperties.

(** X26: the first UI and the engine normalise the language alike. *)
Theorem app_lang_agrees_with_engine (language : string) :
  App.lang language = lang (Some language).
Proof.
  rewrite lang_spec. unfold App.lang.
  destruct (all_space language) eqn:Hall.
  - apply strip_empty_iff in Hall. by rewrite Hall.
  - destruct (String.eqb_spec (strip language) "") as [Hs | Hs]; [| done].
    apply strip_empty_iff in Hs. congruence.
Qed.

(** ** The stand-alone UI *)

Section GradioProperties.
Import GradioApp.
Context `{Environment} `{Platform}.

(** X28: a model value that is not one of the five, and for which the
    UI has no engine, makes [do_transcribe] raise the [ValueError] of
    the enumeration; no engine is made and nothing else changes. *)
Theorem do_transcribe_unknown_model (audio_path model_value lang : string)
    (beam_size : Z) (vad_filter : bool) (ui : UI) :
  audio_path ≠ "" →
  engines ui !! model_value = None →
  model_value ∉ choices →
  do_transcribe audio_path model_value lang beam_size vad_filter ui
  = (Raise (ValueError ("'" +:+ model_value
                        +:+ "' is not a valid WhisperModelName")), ui).
Proof.
  intros Hne Hnone Hnot. unfold do_transcribe.
  destruct audio_path as [|c a]; [done |]. simpl. rewrite Hnone.
  destruct (WhisperModelName_of model_value) as [m|e] eqn:Hof.
  - exfalso. apply Hnot. apply WhisperModelName_of_Return in Hof as <-.
    apply list_elem_of_fmap. exists m. split; [done |].
    apply list_elem_of_In. destruct m; simpl; tauto.
  - by apply WhisperModelName_of_Raise in Hof as [-> _].
Qed.

(** X29: for a path that is not empty and names no file, the UI shows
    the time of the zero result and the words for silence, as it does
    when nothing was said; the engine for the model is made and kept,
    without a model, and the world is untouched. *)
Theorem do_transcribe_missing_file (audio_path lang : string)
    (m : WhisperModelName) (beam_size : Z) (vad_filter : bool) (ui : UI) :
  audio_path ≠ "" →
  files (ui_world ui) !! audio_path = None →
  engines ui !! value m = None →
  do_transcribe audio_path (value m) lang beam_size vad_filter ui
  = (Return (("Time: " +:+ format_2f 0%float +:+ "s") +:+ newline
             +:+ newline +:+ "[No speech detected]"),
     mkUI (<[value m := WhisperSTT_init m None None]> (engines ui))
       (ui_world ui)).
Proof.
  intros Hne Hmissing Hnone. unfold do_transcribe.
  destruct audio_path as [|c a]; [done |]. simpl. rewrite Hnone.
  rewrite WhisperModelName_of_value, lookup_insert_eq.
  rewrite transcribe_guard by auto. simpl.
  rewrite insert_insert_eq. reflexivity.
Qed.




End GradioProperties.

(** ** Concrete runs of the front ends *)

Example api_success :
  fst (@ApiServer.transcribe_file test_env test_platform wav_file small
         None 5 true 50 new_server)
  = ApiServer.Ok
      (ApiServer.mkBody "hello world" "small" (Some "en")
         (Some 0x1.ccccccccccccdp-1%float) 1%float 8).
Proof. vm_compute. reflexivity. Qed.

Example api_success_state :
  let sv := snd (@ApiServer.transcribe_file test_env test_platform wav_file
                   small None 5 true 50 new_server) in
  files (ApiServer.os sv) = ∅
  ∧ trace (ApiServer.os sv)
    = [EvTempFile "/tmp/tmpa1b2c3.wav"; EvEnsureModel;
       EvLoad "small" "cuda" "float16";
       EvInfer 0 "/tmp/tmpa1b2c3.wav" None 5 true;
       EvRemove "/tmp/tmpa1b2c3.wav"]
  ∧ EngineCache.ENGINES (ApiServer.store sv) !! small = Some 0
  ∧ EngineCache.heap (ApiServer.store sv) !! 0
    = Some (mkSTT small "cuda" "float16" (Some 0)).
Proof. vm_compute. auto. Qed.

Example api_bad_mime :
  @ApiServer.transcribe_file test_env test_platform pdf_file small None 5
    true 50 new_server
  = (ApiServer.Failed
       (ApiServer.HTTPException 415
          "Unsupported content-type: application/pdf"),
     new_server).
Proof. vm_compute. reflexivity. Qed.

Example api_bad_extension :
  @ApiServer.transcribe_file test_env test_platform exe_file small None 5
    true 50 new_server
  = (ApiServer.Failed
       (ApiServer.HTTPException 415 "Unsupported file extension: .exe"),
     new_server).
Proof. vm_compute. reflexivity. Qed.

Example gradio_click :
  fst (@GradioApp.do_transcribe test_env test_platform "audio.wav" "tiny"
         "" 5 true
         (GradioApp.mkUI ∅ (mkWorld {["audio.wav" := []]} 0 [] [])))
  = Return (String.concat newline
              ["Detected language: en (p=1.00)"; "Time: 1.00s"; "";
               "hello world"]).
Proof. vm_compute. reflexivity. Qed.

Example app_switching :
  let p := @App.load_models test_env ["small"; "tiny"; "small"]
             (App.mkProcess None (mkWorld ∅ 0 [] [])) in
  App._MODEL p = Some (App.mkLoaded "small" 2)
  ∧ models (App.app_world p)
    = [("small", "cuda", "float16"); ("tiny", "cuda", "float16");
       ("small", "cuda", "float16")].
Proof. vm_compute. auto. Qed.

(** ** The further properties at concrete inputs *)

Ltac by_evaluation :=
  match goal with
  | |- ?P => apply (bool_decide_unpack P); vm_compute; exact I
  end.

(** X2 at a concrete input. *)
Lemma engine_ready_never_reloads_witness :
  _model (self (@calls test_env two_calls ready_state)) = Some 0
  ∧ models (world (@calls test_env two_calls ready_state))
    = models (world ready_state)
  ∧ ∃ evs, trace (world (@calls test_env two_calls ready_state))
             = trace (world ready_state) ++ evs
           ∧ load_events evs = [].
Proof.
  apply (@engine_ready_never_reloads test_env two_calls ready_state 0).
  reflexivity.
Defined.

(** X3 at a concrete input. *)
Lemma result_text_is_stripped_witness :
  starts_space (text hello_result) = false
  ∧ ends_space (text hello_result) = false.
Proof.
  apply (@result_text_is_stripped test_env
           (Transcribe "audio.wav" None 5 true) test_state
           (snd (@transcribe test_env "audio.wav" None 5 true test_state))
           hello_result).
  vm_compute. reflexivity.
Defined.

(** X4 at a concrete input. *)
Lemma transcribe_load_failure_witness :
  @transcribe broken_env "audio.wav" None 5 true test_state
  = (Raise (ModelError "CUDA driver not found"),
     mkState (self test_state)
       (mkWorld (files (world test_state)) 0 []
          [EvEnsureModel; EvLoad "tiny" "cuda" "float16"])).
Proof.
  apply (@transcribe_load_failure broken_env "audio.wav" None 5 true
           test_state "CUDA driver not found").
  - discriminate.
  - exists []. reflexivity.
  - lia.
  - reflexivity.
  - reflexivity.
Defined.

(** X5 at a concrete input. *)
Lemma transcribe_inference_failure_witness :
  let out := @transcribe failing_env "audio.wav" None 5 true test_state in
  fst out = Raise (ModelError "decoding failed")
  ∧ _model (self (snd out)) = Some (ready_handle test_state)
  ∧ files (world (snd out)) = files (world test_state)
  ∧ ticks (world (snd out)) = S (ticks (world test_state)).
Proof.
  apply (@transcribe_inference_failure failing_env "audio.wav" None 5 true
           test_state (ModelError "decoding failed")).
  - discriminate.
  - exists []. reflexivity.
  - lia.
  - reflexivity.
  - reflexivity.
Defined.

(** X6 at a concrete input. *)
Lemma transcribe_pcm16_wave_error_witness :
  @transcribe_pcm16 test_env one_sample 0 None 5 true test_state
  = (Raise WaveError, test_state).
Proof.
  apply (@transcribe_pcm16_wave_error test_env one_sample 0 None 5 true
           test_state).
  - discriminate.
  - reflexivity.
Defined.

(** X8 at a concrete input. *)
Lemma lang_never_blank_witness :
  "en" ≠ "" ∧ starts_space "en" = false ∧ ends_space "en" = false
  ∧ lang (Some "en") = Some "en"
  ∧ ∃ l, Some " en " = Some l ∧ "en" = strip l.
Proof.
  apply (lang_never_blank (Some " en ") "en"). reflexivity.
Defined.

(** X11 at a concrete input. *)
Lemma init_lock_mutual_exclusion_witness :
  0 = 0
  ∧ Concurrent.lock (Concurrent.run until_construct (Concurrent.init small 2))
    = Some 0.
Proof.
  apply (init_lock_mutual_exclusion small 2 until_construct 0 0
           Concurrent.AtConstruct Concurrent.AtConstruct);
    reflexivity.
Defined.

(** X12 at a concrete input. *)
Lemma init_lock_free_when_done_witness :
  Concurrent.lock (Concurrent.run whole_race (Concurrent.init small 2))
  = None.
Proof.
  apply (init_lock_free_when_done small 2 whole_race). reflexivity.
Defined.

(** X13 at a concrete input. *)
Lemma constructor_failure_releases_lock_witness :
  let c := Concurrent.run until_construct (Concurrent.init small 2) in
  let c' := Concurrent.run [(0, false)] c in
  Concurrent.threads c'
  = <[0 := Concurrent.Raised (ModelError "")]> (Concurrent.threads c)
  ∧ Concurrent.lock c' = None
  ∧ _model (Concurrent.engine c') = None
  ∧ Concurrent.built c' = 0
  ∧ ∀ j, Concurrent.threads c' !! j = Some Concurrent.AtAcquire →
         ∃ c'', Concurrent.step j true c' = Some c''
                ∧ Concurrent.threads c'' !! j = Some Concurrent.AtRecheck
                ∧ Concurrent.lock c'' = Some j.
Proof.
  apply (constructor_failure_releases_lock small 2 until_construct 0).
  reflexivity.
Defined.

(** X14 at a concrete input. *)
Lemma upload_rejected_for_content_type_witness :
  @ApiServer.transcribe_file test_env test_platform pdf_file small None 5
    true 50 new_server
  = (ApiServer.Failed
       (ApiServer.HTTPException 415
          ("Unsupported content-type: " +:+ "application/pdf")),
     new_server).
Proof.
  apply (@upload_rejected_for_content_type test_env test_platform pdf_file
           small None 5 true 50 new_server "application/pdf").
  - reflexivity.
  - discriminate.
  - by_evaluation.
Defined.

(** X15 at a concrete input. *)
Lemma upload_rejected_for_extension_witness :
  @ApiServer.transcribe_file test_env test_platform exe_file small None 5
    true 50 new_server
  = (ApiServer.Failed
       (ApiServer.HTTPException 415
          ("Unsupported file extension: "
           +:+ @suffix_of test_platform exe_file)),
     new_server).
Proof.
  apply (@upload_rejected_for_extension test_env test_platform exe_file
           small None 5 true 50 new_server).
  - right. by_evaluation.
  - by_evaluation.
  - by_evaluation.
Defined.

(** X19 at a concrete input. *)
Lemma upload_copied_whole_witness :
  ApiServer.upload_loop [riff; riff] 8 0 []
  = (false, Z.of_nat (length (concat [riff; riff])), concat [riff; riff]).
Proof.
  apply (upload_copied_whole [riff; riff] 8).
  - repeat constructor; discriminate.
  - vm_compute. discriminate.
Defined.

(** X20 at a concrete input. *)
Lemma upload_cut_off_at_limit_witness :
  ∃ total written rest,
    ApiServer.upload_loop [riff; riff] 5 0 [] = (true, total, written)
    ∧ concat [riff; riff] = written ++ rest
    ∧ (Z.of_nat (length written) ≤ 5 < total)%Z
    ∧ (total ≤ 5 + 1024 * 1024)%Z.
Proof.
  apply (upload_cut_off_at_limit [riff; riff] 5).
  - repeat constructor; discriminate.
  - repeat constructor; vm_compute; discriminate.
  - split; vm_compute; [discriminate | reflexivity].
Defined.

Lemma accepted_wav_file : @accepted test_platform wav_file.
Proof. split; right; by_evaluation. Qed.

Lemma accepted_big_file : @accepted test_platform big_file.
Proof. split; right; by_evaluation. Qed.

Lemma new_server_cache_ok : cache_ok (ApiServer.store new_server).
Proof. intros m l Hm. simpl in Hm. by rewrite lookup_empty in Hm. Qed.

Lemma big_file_chunks :
  Forall (fun c : bytes => c ≠ []) (ApiServer.chunks big_file)
  ∧ (1 * 1024 * 1024
     < Z.of_nat (length (concat (ApiServer.chunks big_file))))%Z.
Proof.
  unfold big_file. cbn [ApiServer.chunks]. split.
  - repeat constructor.
    + intros Heq. apply (f_equal length) in Heq.
      rewrite length_replicate in Heq. cbn [length] in Heq. lia.
    + discriminate.
  - cbn [concat]. rewrite !length_app, !length_replicate. cbn [length]. lia.
Qed.

(** X16: The repository's test of the limit: 1 MiB and ten bytes against a
    limit of 1 MiB. *)
Lemma upload_too_large_witness :
  let out := @ApiServer.transcribe_file test_env test_platform big_file
               small None 5 true 1 new_server in
  fst out = ApiServer.Failed
              (ApiServer.HTTPException 413
                 ("File too large (>" +:+ pretty.pretty 1%Z +:+ "MB)."))
  ∧ ApiServer.store (snd out) = ApiServer.store new_server
  ∧ ∃ written rest,
      concat (ApiServer.chunks big_file) = written ++ rest
      ∧ (Z.of_nat (length written) ≤ 1 * 1024 * 1024)%Z
      ∧ ApiServer.os (snd out)
        = uploaded (@tmp_of test_env test_platform big_file
                      (ApiServer.os new_server))
            written (ApiServer.os new_server).
Proof.
  apply (@upload_too_large test_env test_platform big_file small None 5 true
           1 new_server).
  - exact accepted_big_file.
  - exact (proj1 big_file_chunks).
  - lia.
  - exact (proj2 big_file_chunks).
Defined.

(** X17 at a concrete input. *)
Lemma handler_delegates_and_cleans_up_witness :
  let data := concat (ApiServer.chunks wav_file) in
  let tmp := @tmp_of test_env test_platform wav_file
               (ApiServer.os new_server) in
  let inner :=
    @transcribe test_env tmp None 5 true
      (mkState (engine_for small (ApiServer.store new_server))
         (uploaded tmp data (ApiServer.os new_server))) in
  let out := @ApiServer.transcribe_file test_env test_platform wav_file
               small None 5 true 50 new_server in
  fst out = @reply_of test_platform small (Z.of_nat (length data))
              (fst inner)
  ∧ files (ApiServer.os (snd out))
    = delete tmp (files (ApiServer.os new_server))
  ∧ EngineCache.heap (ApiServer.store (snd out))
      !! slot_for small (ApiServer.store new_server)
    = Some (self (snd inner))
  ∧ EngineCache.ENGINES (ApiServer.store (snd out))
    = <[small := slot_for small (ApiServer.store new_server)]>
        (EngineCache.ENGINES (ApiServer.store new_server))
  ∧ ∃ evs, trace (ApiServer.os (snd out))
             = trace (ApiServer.os new_server) ++ [EvTempFile tmp] ++ evs
               ++ [EvRemove tmp]
           ∧ temp_files evs = [].
Proof.
  apply (@handler_delegates_and_cleans_up test_env test_platform wav_file
           small None 5 true 50 new_server).
  - exact accepted_wav_file.
  - repeat constructor; discriminate.
  - lia.
  - vm_compute. discriminate.
  - exact new_server_cache_ok.
Defined.

(** X18 at a concrete input. *)
Lemma validated_request_reaches_inference_witness :
  ∃ segments info,
    @infer test_env
      (ready_handle
         (mkState (engine_for small (ApiServer.store new_server))
            (ApiServer.os new_server)))
      (<[@tmp_of test_env test_platform wav_file (ApiServer.os new_server)
         := concat (ApiServer.chunks wav_file)]>
         (files (ApiServer.os new_server)))
      (@tmp_of test_env test_platform wav_file (ApiServer.os new_server))
      (lang None) 5 true
    = Return (segments, info)
    ∧ ApiServer.mkBody "hello world" "small" (Some "en")
        (Some 0x1.ccccccccccccdp-1%float) 1%float 8
      = ApiServer.mkBody (strip (join (map seg_text segments)))
          (value small) (info_language info)
          (info_language_probability info)
          (@round_ndigits test_platform
             (@clock test_env (S (ticks (ApiServer.os new_server)))
              - @clock test_env (ticks (ApiServer.os new_server)))%float
             3)
          (Z.of_nat (length (concat (ApiServer.chunks wav_file)))).
Proof.
  exact (@validated_request_reaches_inference test_env test_platform
           wav_file small None 5 true 50 new_server
           accepted_wav_file
           ltac:(repeat constructor; discriminate)
           ltac:(lia)
           ltac:(vm_compute; discriminate)
           new_server_cache_ok
           ltac:(lia)
           ltac:(discriminate)).
Defined.

(** X23 at a concrete input. *)
Lemma load_model_twice_witness :
  @App.load_model test_env "tiny"
    (snd (@App.load_model test_env "tiny" small_loaded))
  = (Return 1, snd (@App.load_model test_env "tiny" small_loaded)).
Proof.
  apply (@load_model_twice test_env "tiny" small_loaded).
  vm_compute. reflexivity.
Defined.

(** X24 at a concrete input. *)
Lemma load_model_keeps_one_model_witness :
  let ms := models (App.app_world small_loaded) in
  let p1 := @App.load_models test_env ["tiny"] small_loaded in
  let p2 := @App.load_models test_env ["tiny"; "small"] small_loaded in
  App._MODEL p1 = Some (App.mkLoaded "tiny" (length ms))
  ∧ models (App.app_world p1) = ms ++ [("tiny", "cuda", "float16")]
  ∧ App._MODEL p2 = Some (App.mkLoaded "small" (S (length ms)))
  ∧ models (App.app_world p2)
    = ms ++ [("tiny", "cuda", "float16"); ("small", "cuda", "float16")].
Proof.
  apply (@load_model_keeps_one_model test_env "tiny" small_loaded
           (App.mkLoaded "small" 0)).
  - reflexivity.
  - discriminate.
  - reflexivity.
  - reflexivity.
Defined.

(** X25 at a concrete input. *)
Lemma load_model_failure_keeps_previous_witness :
  @App.load_model broken_env "tiny" small_loaded
  = (Raise (ModelError "CUDA driver not found"),
     App.mkProcess (App._MODEL small_loaded)
       (mkWorld (files (App.app_world small_loaded))
          (ticks (App.app_world small_loaded))
          (models (App.app_world small_loaded))
          (trace (App.app_world small_loaded)
           ++ [EvLoad "tiny" "cuda" "float16"]))).
Proof.
  apply (@load_model_failure_keeps_previous broken_env "tiny" small_loaded
           "CUDA driver not found").
  - intros lm [= <-]. discriminate.
  - reflexivity.
Defined.

(** X27: A beam size of 0, which the engine refuses, goes through. *)
Lemma app_transcribe_passes_beam_size_witness :
  let out := @App.transcribe test_env test_platform "audio.wav" "small"
               " en " 0 small_loaded in
  trace (App.app_world (snd out))
  = trace (App.app_world small_loaded)
    ++ [EvInfer 0 "audio.wav" (App.lang " en ") 0 true]
  ∧ files (App.app_world (snd out)) = files (App.app_world small_loaded)
  ∧ App._MODEL (snd out) = App._MODEL small_loaded
  ∧ ∀ msg, fst out = Raise (ValueError msg) →
           @infer test_env 0 (files (App.app_world small_loaded))
             "audio.wav" (App.lang " en ") 0 true
           = Raise (ValueError msg).
Proof.
  apply (@app_transcribe_passes_beam_size test_env test_platform "audio.wav"
           "small" " en " 0 small_loaded small_loaded 0).
  - discriminate.
  - exists []. reflexivity.
  - reflexivity.
Defined.

(** X28 at a concrete input. *)
Lemma do_transcribe_unknown_model_witness :
  @GradioApp.do_transcribe test_env test_platform "audio.wav" "large" "" 5
    true new_ui
  = (Raise (ValueError ("'" +:+ "large"
                        +:+ "' is not a valid WhisperModelName")), new_ui).
Proof.
  apply (@do_transcribe_unknown_model test_env test_platform "audio.wav"
           "large" "" 5 true new_ui).
  - discriminate.
  - reflexivity.
  - by_evaluation.
Defined.

(** X29 at a concrete input. *)
Lemma do_transcribe_missing_file_witness :
  @GradioApp.do_transcribe test_env test_platform "missing.wav"
    (value tiny) "" 5 true new_ui
  = (Return (("Time: " +:+ @format_2f test_platform 0%float +:+ "s")
             +:+ newline +:+ newline +:+ "[No speech detected]"),
     GradioApp.mkUI
       (<[value tiny := WhisperSTT_init tiny None None]>
          (GradioApp.engines new_ui))
       (GradioApp.ui_world new_ui)).
Proof.
  apply (@do_transcribe_missing_file test_env test_platform "missing.wav" ""
           tiny 5 true new_ui).
  - discriminate.
  - reflexivity.
  - reflexivity.
Defined.
